(** * dhi-search-mcp: the catalog matching engine of [dhi_search_mcp/core.py]

    A shallow embedding of [core.py] ([extract_image_names],
    [find_matches], [check_compliance], and the functions that reach the
    network, given what the network delivers) and of the tools of
    [server.py], with the properties the specification states about them
    and further ones read off the code.

    Conventions of the embedding.
    - A Python [str] is a list of characters ([pystr]).  Characters are the
      code points 0..255; [lower] and [split] follow what Python does on that
      range.
    - A Python [int] is a [Z].
    - A Python [dict] is an association list in insertion order; looking a
      key up finds its first binding, and storing under a bound key replaces
      the value in place.
    - [fuzz.WRatio] and [fuzz.partial_ratio] belong to the fuzzywuzzy
      library, not to this repository: the engine is parameterised by them.
*)

From Stdlib Require Import List Ascii String ZArith Lia Bool Permutation Sorted.
Import ListNotations.

Local Open Scope Z_scope.

(* ================================================================== *)
(** * Python strings *)
(* ================================================================== *)

Definition pystr : Type := list ascii.

(** A string literal of the source. *)
Definition str (s : string) : pystr := list_ascii_of_string s.
Arguments str : simpl never.

(** [a == b] on strings. *)
Fixpoint pystr_eqb (a b : pystr) : bool :=
  match a, b with
  | [], [] => true
  | x :: a', y :: b' => Ascii.eqb x y && pystr_eqb a' b'
  | _, _ => false
  end.

(** [x in xs] for a list of strings. *)
Definition mem (x : pystr) (xs : list pystr) : bool := existsb (pystr_eqb x) xs.

(** [str.lower()] on one character: A-Z, and the upper-case letters of the
    Latin-1 block (0xC0-0xDE without the multiplication sign 0xD7). *)
Definition lower_char (c : ascii) : ascii :=
  let n := nat_of_ascii c in
  if (((65 <=? n) && (n <=? 90)) ||
      ((192 <=? n) && (n <=? 222) && negb (n =? 215)))%nat
  then ascii_of_nat (n + 32) else c.

(** [s.lower()] *)
Definition lower (s : pystr) : pystr := map lower_char s.

(** The characters [str.split()] splits on: TAB, LF, VT, FF, CR,
    0x1C-0x1F, space, NEL (0x85) and NBSP (0xA0). *)
Definition is_space (c : ascii) : bool :=
  let n := nat_of_ascii c in
  (((9 <=? n) && (n <=? 13)) || ((28 <=? n) && (n <=? 32)) ||
   (n =? 133) || (n =? 160))%nat.

(** Does [s] begin with a character that is not whitespace? *)
Definition starts_token (s : pystr) : bool :=
  match s with
  | [] => false
  | c :: _ => negb (is_space c)
  end.

(** [s.split()]: the maximal runs of non-whitespace characters, in order. *)
Fixpoint split (s : pystr) : list pystr :=
  match s with
  | [] => []
  | c :: s' =>
      if is_space c then split s'
      else if starts_token s' then
             match split s' with
             | t :: ts => (c :: t) :: ts
             | [] => [[c]]
             end
           else [c] :: split s'
  end.

(** [sep.join(parts)] *)
Fixpoint join (sep : pystr) (parts : list pystr) : pystr :=
  match parts with
  | [] => []
  | [p] => p
  | p :: ps => p ++ sep ++ join sep ps
  end.

(** [s.startswith(p)] *)
Fixpoint startswith (p s : pystr) : bool :=
  match p, s with
  | [], _ => true
  | _ :: _, [] => false
  | a :: p', b :: s' => Ascii.eqb a b && startswith p' s'
  end.

(** [p in s] for strings: [p] occurs in [s] as a substring. *)
Fixpoint contains (p s : pystr) : bool :=
  startswith p s ||
  match s with
  | [] => false
  | _ :: s' => contains p s'
  end.

(** The scan of [s.replace(old, new)] for a non-empty [old]: left to right,
    occurrences do not overlap.  [skip] counts the characters of the
    occurrence just replaced that are still to be passed over. *)
Fixpoint replace_scan (old new : pystr) (skip : nat) (s : pystr) : pystr :=
  match s with
  | [] => []
  | c :: s' =>
      match skip with
      | S k => replace_scan old new k s'
      | O =>
          if startswith old s
          then new ++ replace_scan old new (Nat.pred (List.length old)) s'
          else c :: replace_scan old new O s'
      end
  end.

(** [s.replace(old, new)].  With an empty [old] Python puts [new] before
    every character and at the end. *)
Definition replace (old new s : pystr) : pystr :=
  match old with
  | [] => new ++ flat_map (fun c => c :: new) s
  | _ :: _ => replace_scan old new O s
  end.


(* ================================================================== *)
(** * Python dictionaries *)
(* ================================================================== *)

Section Dict.
Context {K V : Type} (key_eqb : K -> K -> bool).

(** [d.get(k, default)] *)
Fixpoint dict_get (d : list (K * V)) (k : K) (default : V) : V :=
  match d with
  | [] => default
  | (k', v) :: d' => if key_eqb k k' then v else dict_get d' k default
  end.

(** [d[k] = v]: a bound key keeps its place, a new key goes last. *)
Fixpoint dict_set (d : list (K * V)) (k : K) (v : V) : list (K * V) :=
  match d with
  | [] => [(k, v)]
  | (k', v') :: d' =>
      if key_eqb k k' then (k', v) :: d' else (k', v') :: dict_set d' k v
  end.

(** [list(d.keys())] *)
Definition dict_keys (d : list (K * V)) : list K := map fst d.

End Dict.

(* ================================================================== *)
(** * Ranking by score *)
(* ================================================================== *)

(** One step of a stable sort by descending score: [x], which came before
    every element of [l], is put before the first element that does not
    score strictly more. *)
Fixpoint insert_desc {A : Type} (x : A * Z) (l : list (A * Z)) : list (A * Z) :=
  match l with
  | [] => [x]
  | y :: l' => if snd x <? snd y then y :: insert_desc x l' else x :: y :: l'
  end.

(** [sorted(l, key=lambda i: i[1], reverse=True)]: stable, best score
    first. *)
Fixpoint sort_desc {A : Type} (l : list (A * Z)) : list (A * Z) :=
  match l with
  | [] => []
  | x :: l' => insert_desc x (sort_desc l')
  end.

(* ================================================================== *)
(** * find_matches *)
(* ================================================================== *)

(** [aliases = {'.net': 'dotnet'}] *)
Definition aliases : list (pystr * pystr) := [(str ".net", str "dotnet")].

(** [stop_words] *)
Definition stop_words : list pystr :=
  [str "runtime"; str "sdk"; str "cli"; str "agent"; str "operator";
   str "server"; str "client"; str "driver"; str "plugin"; str "controller"].

(** [keywords_to_enforce = ['cli', 'sdk']] *)
Definition keywords_to_enforce : list pystr := [str "cli"; str "sdk"].

(** [for k, v in aliases.items(): if k in query: query = query.replace(k, v)] *)
Definition apply_aliases (query : pystr) : pystr :=
  fold_left
    (fun q kv => if contains (fst kv) q then replace (fst kv) (snd kv) q else q)
    aliases query.

(** The value of [query] from line 151 on. *)
Definition normalized_query (input_image : pystr) : pystr :=
  apply_aliases (lower input_image).

(** [query_parts = query.split()] *)
Definition query_parts_of (input_image : pystr) : list pystr :=
  split (normalized_query input_image).

(** [core_parts = [p for p in query_parts if p not in stop_words]] *)
Definition core_parts_of (input_image : pystr) : list pystr :=
  filter (fun p => negb (mem p stop_words)) (query_parts_of input_image).

(** [core_name = " ".join(core_parts) if core_parts else query] *)
Definition core_name_of (input_image : pystr) : pystr :=
  match core_parts_of input_image with
  | [] => normalized_query input_image
  | _ :: _ => join (str " ") (core_parts_of input_image)
  end.

(** [name_clean = name.replace('-', ' ').replace('_', ' ').lower()] *)
Definition name_clean_of (name : pystr) : pystr :=
  lower (replace (str "_") (str " ") (replace (str "-") (str " ") name)).

(** [tags_str = " ".join(tags).lower()] *)
Definition tags_str_of (tags : list pystr) : pystr :=
  lower (join (str " ") tags).

(** Lines 176-180: some enforced keyword is a query token and does not occur
    in the cleaned name. *)
Definition should_continue (query_parts : list pystr) (name_clean : pystr) : bool :=
  existsb (fun kw => mem kw query_parts && negb (contains kw name_clean))
          keywords_to_enforce.

(** Lines 186-191: every enforced keyword that is a query token occurs in
    the cleaned name or in the tag text. *)
Definition all_keywords_found_in_tags
  (query_parts : list pystr) (name_clean tags_str : pystr) : bool :=
  forallb (fun kw =>
             if mem kw query_parts
             then negb (negb (contains kw name_clean) && negb (contains kw tags_str))
             else true)
          keywords_to_enforce.

(** Lines 175-194: does the keyword-enforcement rule drop the candidate? *)
Definition keyword_rule_discards
  (query_parts : list pystr) (name_clean : pystr) (tags : list pystr) : bool :=
  if should_continue query_parts name_clean
  then negb (all_keywords_found_in_tags query_parts name_clean (tags_str_of tags))
  else false.

Section Engine.

(** [fuzz.WRatio] as [process.extract] applies it to the query and a choice
    (the library's own pre-processing of both strings included), and
    [fuzz.partial_ratio]. *)
Variable WRatio : pystr -> pystr -> Z.
Variable partial_ratio : pystr -> pystr -> Z.

(** Modelled from the spec: [process.extract(query, choices, limit=limit,
    scorer=fuzz.WRatio)] is fuzzywuzzy code, absent from the repository.
    Section 4.3 step 2: every choice is scored against the query and at most
    the top [limit] by score are retained, as (choice, score) pairs, best
    first; equal scores keep the order of [choices]. *)
Definition process_extract (query : pystr) (choices : list pystr) (limit : nat)
  : list (pystr * Z) :=
  firstn limit (sort_desc (map (fun c => (c, WRatio query c)) choices)).

(** Lines 169-173: does the core-name containment rule keep the candidate? *)
Definition core_rule_keeps (core_name name_clean : pystr) : bool :=
  match core_name with
  | [] => true
  | _ :: _ =>
      if (2 <? Z.of_nat (List.length core_name))
      then if negb (contains core_name name_clean)
           then negb (partial_ratio core_name name_clean <? 80)
           else true
      else true
  end.

(** The body of the loop of lines 164-196 for one [(name, score)]: [true]
    when the pair is appended to [results]. *)
Definition keeps_match
  (catalog_image_data : list (pystr * list pystr))
  (query_parts : list pystr) (core_name : pystr) (m : pystr * Z) : bool :=
  let name := fst m in
  let score := snd m in
  if score <? 85 then false
  else
    let name_clean := name_clean_of name in
    if negb (core_rule_keeps core_name name_clean) then false
    else
      negb (keyword_rule_discards query_parts name_clean
              (dict_get pystr_eqb catalog_image_data name [])).

(** [find_matches(input_image, catalog_image_data)] *)
Definition find_matches
  (input_image : pystr) (catalog_image_data : list (pystr * list pystr))
  : list pystr :=
  let catalog_images := dict_keys catalog_image_data in
  let query := normalized_query input_image in
  let query_parts := query_parts_of input_image in
  let core_name := core_name_of input_image in
  let matches := process_extract query catalog_images 5 in
  let results :=
    filter (keeps_match catalog_image_data query_parts core_name) matches in
  map fst (sort_desc results).

End Engine.

(* ================================================================== *)
(** * check_compliance *)
(* ================================================================== *)

(** The dictionary [{"fips": ..., "stig": ...}] the function returns. *)
Record compliance : Type := { fips : bool; stig : bool }.

(** [check_compliance(tags)] *)
Definition check_compliance (tags : list pystr) : compliance :=
  let tags_lower := map lower tags in
  {| fips := existsb (contains (str "-fips")) tags_lower;
     stig := existsb (contains (str "stig")) tags_lower |}.

(* ================================================================== *)
(** * extract_image_names *)
(* ================================================================== *)

(** The values [response.json()] can deliver.  JSON numbers are taken to be
    integers. *)
#[warnings="-register-all"]
Inductive pyval : Type :=
| PNone
| PBool (b : bool)
| PInt (z : Z)
| PStr (s : pystr)
| PList (l : list pyval)
| PDict (d : list (pystr * pyval)).

(** The exceptions of the function: the three built-in ones its body can
    raise, and the repository's own [DHISearchError]. *)
Inductive exn : Type := KeyError | TypeError | AttributeError | DHISearchError.

Inductive result (A : Type) : Type :=
| Ok (a : A)
| Raise (e : exn).
Arguments Ok {A} a.
Arguments Raise {A} e.

Definition bind {A B : Type} (r : result A) (k : A -> result B) : result B :=
  match r with
  | Ok a => k a
  | Raise e => Raise e
  end.

Notation "x <- r ;; k" := (bind r (fun x => k))
  (at level 61, r at next level, right associativity).

(** [bool(v)] *)
Definition truthy (v : pyval) : bool :=
  match v with
  | PNone => false
  | PBool b => b
  | PInt z => negb (z =? 0)
  | PStr s => match s with [] => false | _ :: _ => true end
  | PList l => match l with [] => false | _ :: _ => true end
  | PDict d => match d with [] => false | _ :: _ => true end
  end.

(** Can [v] be a dictionary key?  Lists and dictionaries are unhashable. *)
Definition hashable (v : pyval) : bool :=
  match v with
  | PList _ | PDict _ => false
  | _ => true
  end.

(** [a == b] on hashable values: [True == 1] and [False == 0]. *)
Definition key_eqb (a b : pyval) : bool :=
  match a, b with
  | PNone, PNone => true
  | PBool x, PBool y => Bool.eqb x y
  | PBool x, PInt z | PInt z, PBool x => z =? (if x then 1 else 0)
  | PInt x, PInt y => x =? y
  | PStr x, PStr y => pystr_eqb x y
  | _, _ => false
  end.

(** [v[k]] for a string [k]: [KeyError] on a dictionary without the key,
    [TypeError] on anything that is not a dictionary. *)
Definition subscript (v : pyval) (k : pystr) : result pyval :=
  match v with
  | PDict d =>
      match find (fun kv => pystr_eqb k (fst kv)) d with
      | Some kv => Ok (snd kv)
      | None => Raise KeyError
      end
  | _ => Raise TypeError
  end.

(** [v.get(k, default)]: only a dictionary has the method. *)
Definition py_get (v : pyval) (k : pystr) (default : pyval) : result pyval :=
  match v with
  | PDict d => Ok (dict_get pystr_eqb d k default)
  | _ => Raise AttributeError
  end.

(** What [for item in v] runs over: the elements of a list, the keys of a
    dictionary, the characters of a string; [TypeError] otherwise. *)
Definition py_iter (v : pyval) : result (list pyval) :=
  match v with
  | PList l => Ok l
  | PDict d => Ok (map (fun kv => PStr (fst kv)) d)
  | PStr s => Ok (map (fun c => PStr [c]) s)
  | _ => Raise TypeError
  end.

(** [(image_data, stats)] *)
Definition extract_state : Type := (list (pyval * pyval) * list (pyval * Z))%type.

(** The body of the loop of lines 116-123. *)
Definition extract_item (st : extract_state) (item : pyval) : result extract_state :=
  let '(image_data, stats) := st in
  name <- py_get item (str "name") PNone ;;
  item_type <- py_get item (str "type") (PStr (str "Unknown")) ;;
  if truthy name then
    if hashable item_type then
      let stats := dict_set key_eqb stats item_type
                     (dict_get key_eqb stats item_type 0 + 1) in
      tags <- py_get item (str "tagNames") (PList []) ;;
      let tags := if truthy tags then tags else PList [] in
      if hashable name
      then Ok (dict_set key_eqb image_data name tags, stats)
      else Raise TypeError
    else Raise TypeError
  else Ok st.

(** [for item in items: ...], stopping at the first exception. *)
Fixpoint extract_loop (st : extract_state) (items : list pyval) : result extract_state :=
  match items with
  | [] => Ok st
  | item :: rest => st' <- extract_item st item ;; extract_loop st' rest
  end.

(** Line 115: [catalog_data['data']['dhiListRepositories']['items']] *)
Definition catalog_items (catalog_data : pyval) : result pyval :=
  data <- subscript catalog_data (str "data") ;;
  repos <- subscript data (str "dhiListRepositories") ;;
  subscript repos (str "items").

(** The [try] block of lines 115-123. *)
Definition extract_body (catalog_data : pyval) : result extract_state :=
  items <- catalog_items catalog_data ;;
  elems <- py_iter items ;;
  extract_loop ([], []) elems.

(** [extract_image_names(catalog_data)]: [except (KeyError, TypeError)]
    turns these two into [DHISearchError]; any other exception passes. *)
Definition extract_image_names (catalog_data : pyval) : result extract_state :=
  match extract_body catalog_data with
  | Ok r => Ok r
  | Raise KeyError | Raise TypeError => Raise DHISearchError
  | Raise e => Raise e
  end.

(** [sum(stats.values())], as [server.py] computes the catalog size. *)
Definition sum_values {K : Type} (stats : list (K * Z)) : Z :=
  fold_right (fun kv acc => snd kv + acc) 0 stats.

(** ** Well-formed raw items *)

(** A field of a JSON record: missing, [null], or holding a value. *)
Inductive field (A : Type) : Type :=
| Absent
| Null
| Present (a : A).
Arguments Absent {A}.
Arguments Null {A}.
Arguments Present {A} a.

(** A raw catalog item as the catalog query asks for it: [name], [type] and
    [tagNames], each optional. *)
Record RawItem : Type := {
  item_name : field pystr;
  item_type : field pystr;
  item_tagNames : field (list pystr)
}.

Definition field_entry {A : Type} (k : pystr) (inj : A -> pyval) (f : field A)
  : list (pystr * pyval) :=
  match f with
  | Absent => []
  | Null => [(k, PNone)]
  | Present a => [(k, inj a)]
  end.

(** The record as the JSON decoder delivers it. *)
Definition item_to_py (r : RawItem) : pyval :=
  PDict (field_entry (str "name") PStr (item_name r) ++
         field_entry (str "type") PStr (item_type r) ++
         field_entry (str "tagNames") (fun l => PList (map PStr l)) (item_tagNames r)).

(** The response envelope around an item list. *)
Definition catalog_of_items (items : pyval) : pyval :=
  PDict [(str "data",
          PDict [(str "dhiListRepositories", PDict [(str "items", items)])])].

Definition catalog_of (items : list RawItem) : pyval :=
  catalog_of_items (PList (map item_to_py items)).

(** Does the item carry a non-empty name? *)
Definition has_name (r : RawItem) : bool :=
  match item_name r with
  | Present (_ :: _) => true
  | _ => false
  end.

(* ================================================================== *)
(** * A reference scorer *)
(* ================================================================== *)

(** Length of a longest common subsequence. *)
Fixpoint lcs (a b : pystr) : nat :=
  match a with
  | [] => O
  | x :: a' =>
      (fix inner (b : pystr) : nat :=
         match b with
         | [] => O
         | y :: b' =>
             if Ascii.eqb x y then S (lcs a' b')
             else Nat.max (lcs a' b) (inner b')
         end) b
  end.

(** Modelled from the spec: [fuzz.ratio] is fuzzywuzzy code, absent from
    the repository.  Section 4.2 allows "any edit-distance-based ratio
    (e.g. Levenshtein-derived)" with identical strings at 100 and disjoint
    ones near 0; this is the insert/delete-distance ratio
    [2 * lcs / (len a + len b)] as a percentage, rounded to the nearest
    integer. *)
Definition spec_ratio (a b : pystr) : Z :=
  let total := Z.of_nat (List.length a + List.length b) in
  if total =? 0 then 100
  else (400 * Z.of_nat (lcs a b) + total) / (2 * total).

(** The windows of [s] that are [m] characters long. *)
Definition windows (m : nat) (s : pystr) : list pystr :=
  map (fun i => firstn m (skipn i s)) (seq 0 (S (List.length s - m))).

(** Modelled from the spec: [fuzz.partial_ratio] is fuzzywuzzy code, absent
    from the repository.  Section 4.2: "the best ratio achieved by aligning
    the shorter string against any equal-length window of the longer
    string". *)
Definition spec_partial_ratio (a b : pystr) : Z :=
  let shorter := if (List.length a <=? List.length b)%nat then a else b in
  let longer := if (List.length a <=? List.length b)%nat then b else a in
  fold_right Z.max 0
    (map (spec_ratio shorter) (windows (List.length shorter) longer)).

(** ** The normalizer as section 4.1 words it *)

(** Step 4 of section 4.1: the tokens without the stop words, or all tokens
    when none is left. *)
Definition spec_coreTokens (raw : pystr) : list pystr :=
  match core_parts_of raw with
  | [] => query_parts_of raw
  | _ :: _ => core_parts_of raw
  end.

(** Step 5 of section 4.1: "tokens in coreTokens joined by single
    spaces". *)
Definition spec_coreName (raw : pystr) : pystr :=
  join (str " ") (spec_coreTokens raw).

(* ================================================================== *)
(** * The calls that reach the network *)
(* ================================================================== *)

(** A function of [core.py] that reaches the network takes, as an
    argument, what the call delivers; a tool of [server.py] takes what the
    functions of [core.py] it calls deliver.  The text of error messages
    is not modelled. *)

(** What lines 38-40 and 89-91 ([requests.post], [raise_for_status],
    [response.json]) deliver: a [RequestException], or the decoded body. *)
Inductive http_outcome : Type :=
| RequestException
| JsonBody (data : pyval).

(** [not v] for what [os.getenv] returns: [None] or a string. *)
Definition env_unset (v : option pystr) : bool :=
  match v with
  | None => true
  | Some [] => true
  | Some (_ :: _) => false
  end.

(** [get_jwt_token()], given [DOCKER_USERNAME], [DOCKER_PAT] and the
    answer of the authentication endpoint.  [DHISearchError] raised inside
    the [try] is not a [RequestException] and leaves the function, as does
    the [AttributeError] of [data.get] on a body that is not an object. *)
Definition get_jwt_token (username pat : option pystr) (post : http_outcome)
  : result pyval :=
  if env_unset username || env_unset pat then Raise DHISearchError
  else
    match post with
    | RequestException => Raise DHISearchError
    | JsonBody data =>
        token <- py_get data (str "token") PNone ;;
        token <- (if truthy token then Ok token
                  else py_get data (str "access_token") PNone) ;;
        if truthy token then Ok token else Raise DHISearchError
    end.

(** [fetch_catalog(token, query)], given the answer of the GraphQL
    endpoint; the token and the query only shape the request. *)
Definition fetch_catalog (post : http_outcome) : result pyval :=
  match post with
  | RequestException => Raise DHISearchError
  | JsonBody data => Ok data
  end.

(** [get_catalog_data()] *)
Definition get_catalog_data
  (username pat : option pystr) (auth_post catalog_post : http_outcome)
  : result extract_state :=
  token <- get_jwt_token username pat auth_post ;;
  catalog_data <- fetch_catalog catalog_post ;;
  extract_image_names catalog_data.

(** [v == s] for a string [s]: only an equal string is equal to it. *)
Definition py_eq_str (v : pyval) (s : pystr) : bool :=
  match v with
  | PStr x => pystr_eqb x s
  | _ => false
  end.

(** The loop of lines 242-246: the tags of the first item named
    [repo_name]; [DHISearchError] when the loop runs out. *)
Fixpoint find_repository (items : list pyval) (repo_name : pystr) : result pyval :=
  match items with
  | [] => Raise DHISearchError
  | item :: rest =>
      name <- py_get item (str "name") PNone ;;
      if py_eq_str name repo_name then
        tags <- py_get item (str "tagNames") (PList []) ;;
        Ok (if truthy tags then tags else PList [])
      else find_repository rest repo_name
  end.

(** The [try] block of lines 240-246. *)
Definition repository_tags_body (catalog_data : pyval) (repo_name : pystr)
  : result pyval :=
  items <- catalog_items catalog_data ;;
  elems <- py_iter items ;;
  find_repository elems repo_name.

(** [except (KeyError, TypeError)]: these two become [DHISearchError]. *)
Definition handle_parse_errors {A : Type} (r : result A) : result A :=
  match r with
  | Ok a => Ok a
  | Raise KeyError | Raise TypeError => Raise DHISearchError
  | Raise e => Raise e
  end.

(** [get_repository_tags(repo_name)] *)
Definition get_repository_tags
  (username pat : option pystr) (auth_post catalog_post : http_outcome)
  (repo_name : pystr) : result pyval :=
  token <- get_jwt_token username pat auth_post ;;
  catalog_data <- fetch_catalog catalog_post ;;
  handle_parse_errors (repository_tags_body catalog_data repo_name).

(** [tag in v] for a string [tag]: an equal element of a list, a substring
    of a string, a key of a dictionary; [TypeError] on anything else. *)
Definition py_in (tag : pystr) (v : pyval) : result bool :=
  match v with
  | PList l => Ok (existsb (fun x => py_eq_str x tag) l)
  | PStr s => Ok (contains tag s)
  | PDict d => Ok (existsb (fun kv => pystr_eqb (fst kv) tag) d)
  | _ => Raise TypeError
  end.

(** The dictionaries [get_tag_support_info] returns. *)
Definition support_info (repo_name tag : pystr) (info : pystr) : pyval :=
  PDict [(str "repository", PStr repo_name); (str "tag", PStr tag);
         (str "info", PStr info)].

Definition support_found (repo_name tag : pystr) (display eol eos : pyval) : pyval :=
  PDict [(str "repository", PStr repo_name); (str "tag", PStr tag);
         (str "display_name", display); (str "end_of_life", eol);
         (str "end_of_support", eos)].

(** The loop of lines 292-306 with the [return] that follows it. *)
Fixpoint find_tag_definition (defs : list pyval) (repo_name tag : pystr)
  : result pyval :=
  match defs with
  | [] =>
      Ok (support_info repo_name tag
            (str "Tag '" ++ tag ++ str "' not found in support definitions."))
  | defn :: rest =>
      tag_names <- py_get defn (str "tagNames") (PList []) ;;
      found <- py_in tag tag_names ;;
      if found then
        display <- py_get defn (str "displayName") PNone ;;
        eol <- py_get defn (str "endOfLife") PNone ;;
        eos <- py_get defn (str "endOfSupport") PNone ;;
        Ok (support_found repo_name tag display eol eos)
      else find_tag_definition rest repo_name tag
  end.

(** The [try] block of lines 284-306. *)
Definition support_info_body (response : pyval) (repo_name tag : pystr)
  : result pyval :=
  data <- py_get response (str "data") (PDict []) ;;
  repo <- py_get data (str "dhiRepository") (PDict []) ;;
  tag_definitions <- py_get repo (str "tagDefinitions") (PList []) ;;
  if truthy tag_definitions then
    defs <- py_iter tag_definitions ;;
    find_tag_definition defs repo_name tag
  else
    Ok (support_info repo_name tag
          (str "No support information found for this repository.")).

(** [get_tag_support_info(repo_name, tag)], given the answer to the
    repository query. *)
Definition get_tag_support_info
  (username pat : option pystr) (auth_post query_post : http_outcome)
  (repo_name tag : pystr) : result pyval :=
  token <- get_jwt_token username pat auth_post ;;
  response <- fetch_catalog query_post ;;
  handle_parse_errors (support_info_body response repo_name tag).

(* ================================================================== *)
(** * The extractor on well-formed items, typed *)
(* ================================================================== *)

(** [item.get('name')] of a well-formed item, [""] standing for a missing
    or [null] name (both are skipped, as the empty name is). *)
Definition name_of (r : RawItem) : pystr :=
  match item_name r with
  | Present n => n
  | _ => []
  end.

(** [item.get('tagNames', []) or []] of a well-formed item. *)
Definition tags_of (r : RawItem) : list pystr :=
  match item_tagNames r with
  | Present l => l
  | _ => []
  end.

(** [item.get('type', 'Unknown')] of a well-formed item; [None] for a
    [null] type. *)
Definition type_of (r : RawItem) : option pystr :=
  match item_type r with
  | Absent => Some (str "Unknown")
  | Null => None
  | Present t => Some t
  end.

(** [a == b] on type labels. *)
Definition label_eqb (a b : option pystr) : bool :=
  match a, b with
  | None, None => true
  | Some x, Some y => pystr_eqb x y
  | _, _ => false
  end.

(** A name index [dict[str, list[str]]] and type statistics, as Python
    values. *)
Definition embed_index (index : list (pystr * list pystr)) : list (pyval * pyval) :=
  map (fun kv => (PStr (fst kv), PList (map PStr (snd kv)))) index.

Definition embed_label (k : option pystr) : pyval :=
  match k with
  | Some t => PStr t
  | None => PNone
  end.

Definition embed_stats (stats : list (option pystr * Z)) : list (pyval * Z) :=
  map (fun kv => (embed_label (fst kv), snd kv)) stats.

(** The loop of lines 116-123 on well-formed items. *)
Definition index_step (index : list (pystr * list pystr)) (r : RawItem)
  : list (pystr * list pystr) :=
  if has_name r then dict_set pystr_eqb index (name_of r) (tags_of r) else index.

Definition stats_step (stats : list (option pystr * Z)) (r : RawItem)
  : list (option pystr * Z) :=
  if has_name r
  then dict_set label_eqb stats (type_of r)
         (dict_get label_eqb stats (type_of r) 0 + 1)
  else stats.

Definition index_of (items : list RawItem) : list (pystr * list pystr) :=
  fold_left index_step items [].

Definition stats_of (items : list RawItem) : list (option pystr * Z) :=
  fold_left stats_step items [].

(* ================================================================== *)
(** * The tools of server.py *)
(* ================================================================== *)

(** What a tool returns: the dictionary [{"error": str(e)}], or its
    payload. *)
Inductive tool_response (A : Type) : Type :=
| ErrorResponse
| Response (a : A).
Arguments ErrorResponse {A}.
Arguments Response {A} a.

(** [try: ... except DHISearchError as e: return {"error": str(e)}]: any
    other exception leaves the tool. *)
Definition tool {A : Type} (r : result A) : result (tool_response A) :=
  match r with
  | Ok a => Ok (Response a)
  | Raise DHISearchError => Ok ErrorResponse
  | Raise e => Raise e
  end.

(** The typed result of [get_catalog_data()]:
    [tuple[dict[str, list[str]], dict[str, int]]]. *)
Definition catalog_data_t : Type :=
  (list (pystr * list pystr) * list (option pystr * Z))%type.

(** The payload of [search_dhi_catalog]. *)
Record search_result : Type := {
  matched : list (pystr * list pystr);
  unmatched : list pystr;
  total_searched : Z;
  matched_count : Z;
  unmatched_count : Z
}.

Section Search.

Variable WRatio : pystr -> pystr -> Z.
Variable partial_ratio : pystr -> pystr -> Z.

(** The body of the loop of lines 35-40 of [server.py]. *)
Definition search_step (catalog_data : list (pystr * list pystr))
  (acc : list (pystr * list pystr) * list pystr) (image_name : pystr)
  : list (pystr * list pystr) * list pystr :=
  let matches := find_matches WRatio partial_ratio image_name catalog_data in
  match matches with
  | _ :: _ => (dict_set pystr_eqb (fst acc) image_name (firstn 3 matches), snd acc)
  | [] => (fst acc, snd acc ++ [image_name])
  end.

(** [search_dhi_catalog(image_names)], given what [get_catalog_data()]
    delivers. *)
Definition search_dhi_catalog
  (catalog : result catalog_data_t) (image_names : list pystr)
  : result (tool_response search_result) :=
  tool (c <- catalog ;;
        let acc := fold_left (search_step (fst c)) image_names ([], []) in
        Ok {| matched := fst acc;
              unmatched := snd acc;
              total_searched := Z.of_nat (List.length image_names);
              matched_count := Z.of_nat (List.length (fst acc));
              unmatched_count := Z.of_nat (List.length (snd acc)) |}).

End Search.

(** [get_dhi_statistics()]: the statistics and [total_items]. *)
Definition get_dhi_statistics (catalog : result catalog_data_t)
  : result (tool_response (list (option pystr * Z) * Z)) :=
  tool (c <- catalog ;; Ok (snd c, sum_values (snd c))).

(** [a <= b] on strings: by code point, a proper prefix first. *)
Fixpoint pystr_leb (a b : pystr) : bool :=
  match a, b with
  | [], _ => true
  | _ :: _, [] => false
  | x :: a', y :: b' =>
      if (nat_of_ascii x <? nat_of_ascii y)%nat then true
      else if (nat_of_ascii y <? nat_of_ascii x)%nat then false
      else pystr_leb a' b'
  end.

Fixpoint insert_str (x : pystr) (l : list pystr) : list pystr :=
  match l with
  | [] => [x]
  | y :: l' => if pystr_leb x y then x :: y :: l' else y :: insert_str x l'
  end.

(** [sorted(l)] for a list of strings. *)
Fixpoint sorted_str (l : list pystr) : list pystr :=
  match l with
  | [] => []
  | x :: l' => insert_str x (sorted_str l')
  end.

(** The payload of [list_dhi_images]: [images], [count] and [filter]. *)
Record images_result : Type := {
  images : list pystr;
  count : Z;
  filter_used : option pystr
}.

(** [item.get('type') == image_type and item.get('name')] on a well-formed
    item. *)
Definition listed_under (image_type : pystr) (r : RawItem) : bool :=
  match item_type r with
  | Present t => pystr_eqb t image_type && has_name r
  | _ => false
  end.

(** [list_dhi_images(image_type)], given what [get_catalog_data()]
    delivers and, for the branch with a filter, the well-formed items that
    the second fetch and line 95 deliver. *)
Definition list_dhi_images
  (catalog : result catalog_data_t) (raw_items : result (list RawItem))
  (image_type : option pystr) : result (tool_response images_result) :=
  tool (c <- catalog ;;
        image_names <-
          match image_type with
          | None => Ok (sorted_str (dict_keys (fst c)))
          | Some t =>
              items <- raw_items ;;
              Ok (sorted_str (map name_of (filter (listed_under t) items)))
          end ;;
        Ok {| images := image_names;
              count := Z.of_nat (List.length image_names);
              filter_used := image_type |}).

(** The payload of [get_compliance_info]. *)
Record compliance_info : Type := {
  repository : pystr;
  compliance_flags : compliance;
  fips_tags : list pystr;
  stig_tags : list pystr;
  summary : pystr
}.

(** [get_compliance_info(repository_name)], given the tag strings that
    [get_repository_tags] delivers. *)
Definition get_compliance_info
  (tags : result (list pystr)) (repository_name : pystr)
  : result (tool_response compliance_info) :=
  tool (tags <- tags ;;
        let compliance := check_compliance tags in
        Ok {| repository := repository_name;
              compliance_flags := compliance;
              fips_tags := filter (fun t => contains (str "-fips") (lower t)) tags;
              stig_tags := filter (fun t => contains (str "stig") (lower t)) tags;
              summary :=
                str "FIPS: " ++
                (if fips compliance then str "Supported" else str "Not found") ++
                str ", STIG: " ++
                (if stig compliance then str "Supported" else str "Not found") |}).

(** [list_image_tags(repository_name)]: the repository, its tags and their
    number. *)
Definition list_image_tags
  (tags : result (list pystr)) (repository_name : pystr)
  : result (tool_response (pystr * list pystr * Z)) :=
  tool (tags <- tags ;;
        Ok (repository_name, tags, Z.of_nat (List.length tags))).

(** [get_image_support_info(repository_name, tag)] *)
Definition get_image_support_info (info : result pyval)
  : result (tool_response pyval) :=
  tool info.

(* ================================================================== *)
(** * Reading a well-formed item list *)
(* ================================================================== *)

(** [item.get('name') == repo_name] on a well-formed item. *)
Definition name_is (repo_name : pystr) (r : RawItem) : bool :=
  match item_name r with
  | Present n => pystr_eqb repo_name n
  | _ => false
  end.

(** The item is counted under the type label [k]. *)
Definition counted_under (k : option pystr) (r : RawItem) : bool :=
  has_name r && label_eqb k (type_of r).

(* ================================================================== *)
(** * Well-formed support definitions *)
(* ================================================================== *)

(** A tag definition as the repository query asks for it, [tagNames]
    being a list of strings. *)
Record TagDefinition : Type := {
  def_displayName : pyval;
  def_tagNames : list pystr;
  def_endOfLife : pyval;
  def_endOfSupport : pyval
}.

Definition def_to_py (d : TagDefinition) : pyval :=
  PDict [(str "displayName", def_displayName d);
         (str "tagNames", PList (map PStr (def_tagNames d)));
         (str "endOfLife", def_endOfLife d);
         (str "endOfSupport", def_endOfSupport d)].

(** The response envelope around a list of tag definitions. *)
Definition support_response (defs : list TagDefinition) : pyval :=
  PDict [(str "data",
          PDict [(str "dhiRepository",
                  PDict [(str "tagDefinitions", PList (map def_to_py defs))])])].

(** The item has a non-empty name and no [type] key. *)
Definition named_without_type (r : RawItem) : bool :=
  has_name r && match item_type r with Absent => true | _ => false end.

(** A list of strings in the order of [sorted]. *)
Definition ascending (l : list pystr) : Prop :=
  Sorted (fun a b => pystr_leb a b = true) l.

(* ================================================================== *)
(** * find_matches on Python values *)
(* ================================================================== *)

(** Lines 188-189 for one keyword: it is a query token and occurs neither
    in the cleaned name nor in the tag text. *)
Definition keyword_missing
  (query_parts : list pystr) (name_clean tags_str : pystr) (kw : pystr) : bool :=
  mem kw query_parts &&
  (negb (contains kw name_clean) && negb (contains kw tags_str)).

(** The strings of a list of values; [TypeError] at the first value that
    is not a string. *)
Fixpoint all_strings (elems : list pyval) : result (list pystr) :=
  match elems with
  | [] => Ok []
  | PStr s :: rest => strs <- all_strings rest ;; Ok (s :: strs)
  | _ :: _ => Raise TypeError
  end.

(** [sep.join(v)]: [v] must be iterable and hold strings only, else
    [TypeError]. *)
Definition py_join (sep : pystr) (v : pyval) : result pystr :=
  elems <- py_iter v ;;
  strs <- all_strings elems ;;
  Ok (join sep strs).

(** [name.replace('-', ' ').replace('_', ' ').lower()]: only a string has
    the method. *)
Definition name_clean_dyn (name : pyval) : result pystr :=
  match name with
  | PStr s => Ok (name_clean_of s)
  | _ => Raise AttributeError
  end.

Section EngineDyn.

(** The library scorers as calls that may raise; [process.extract] hands
    [fuzz.WRatio] the catalog keys as they are. *)
Variable WRatio : pystr -> pyval -> result Z.
Variable partial_ratio : pystr -> pystr -> result Z.

(** The scoring pass of [process.extract]: it stops at the first choice on
    which the scorer raises. *)
Fixpoint score_choices (query : pystr) (choices : list pyval)
  : result (list (pyval * Z)) :=
  match choices with
  | [] => Ok []
  | c :: rest =>
      score <- WRatio query c ;;
      scored <- score_choices query rest ;;
      Ok ((c, score) :: scored)
  end.

(** Modelled from the spec: [process.extract] with a scorer that may
    raise; otherwise as [process_extract]. *)
Definition process_extract_dyn (query : pystr) (choices : list pyval) (limit : nat)
  : result (list (pyval * Z)) :=
  scored <- score_choices query choices ;;
  Ok (firstn limit (sort_desc scored)).

(** Lines 169-173 with a partial ratio that may raise. *)
Definition core_rule_keeps_dyn (core_name name_clean : pystr) : result bool :=
  match core_name with
  | [] => Ok true
  | _ :: _ =>
      if (2 <? Z.of_nat (List.length core_name))
      then if negb (contains core_name name_clean)
           then core_score <- partial_ratio core_name name_clean ;;
                Ok (negb (core_score <? 80))
           else Ok true
      else Ok true
  end.

(** The body of the loop of lines 164-196 on Python values: [Ok true]
    when the pair is appended to [results], [Ok false] on [continue]. *)
Definition keeps_match_dyn
  (catalog_image_data : list (pyval * pyval))
  (query_parts : list pystr) (core_name : pystr) (m : pyval * Z) : result bool :=
  let name := fst m in
  let score := snd m in
  if score <? 85 then Ok false
  else
    name_clean <- name_clean_dyn name ;;
    core_ok <- core_rule_keeps_dyn core_name name_clean ;;
    if negb core_ok then Ok false
    else if should_continue query_parts name_clean then
      let tags := dict_get key_eqb catalog_image_data name (PList []) in
      joined <- py_join (str " ") tags ;;
      Ok (all_keywords_found_in_tags query_parts name_clean (lower joined))
    else Ok true.

(** The loop of lines 164-196: it stops at the first exception. *)
Fixpoint filter_matches_dyn
  (catalog_image_data : list (pyval * pyval))
  (query_parts : list pystr) (core_name : pystr) (matches : list (pyval * Z))
  : result (list (pyval * Z)) :=
  match matches with
  | [] => Ok []
  | m :: rest =>
      keep <- keeps_match_dyn catalog_image_data query_parts core_name m ;;
      results <- filter_matches_dyn catalog_image_data query_parts core_name rest ;;
      Ok (if keep then m :: results else results)
  end.

(** [find_matches(input_image, catalog_image_data)] with the exceptions
    its body can raise, on a catalog of arbitrary keys and values (what
    [extract_image_names] may hand over). *)
Definition find_matches_dyn
  (input_image : pystr) (catalog_image_data : list (pyval * pyval))
  : result (list pyval) :=
  let catalog_images := dict_keys catalog_image_data in
  let query := normalized_query input_image in
  let query_parts := query_parts_of input_image in
  let core_name := core_name_of input_image in
  matches <- process_extract_dyn query catalog_images 5 ;;
  results <- filter_matches_dyn catalog_image_data query_parts core_name matches ;;
  Ok (map fst (sort_desc results)).

End EngineDyn.

(* ================================================================== *)
(** * Predicates used in the statements *)
(* ================================================================== *)

(** The characters [lower] leaves alone. *)
Definition is_lowered (c : ascii) : Prop := lower_char c = c.

(** A token: not empty, and free of whitespace. *)
Definition is_token (t : pystr) : Prop :=
  t <> [] /\ Forall (fun c => is_space c = false) t.

(** Is the value a record (a JSON object)? *)
Definition is_record (v : pyval) : bool :=
  match v with
  | PDict _ => true
  | _ => false
  end.

(** The order of a ranked list of (name, score) pairs: no score is
    followed by a greater one. *)
Definition ranked {A : Type} (l : list (A * Z)) : Prop :=
  Sorted (fun a b => snd b <= snd a) l.


(* ================================================================== *)
(** * Facts about strings *)
(* ================================================================== *)

Lemma pystr_eqb_eq (a b : pystr) : pystr_eqb a b = true <-> a = b.
Proof.
  revert b; induction a as [|x a IH]; intros [|y b]; simpl; split;
    try discriminate; try reflexivity.
  - intros H. apply andb_true_iff in H as [Hx Hab].
    apply Ascii.eqb_eq in Hx. apply IH in Hab. now subst.
  - intros H. injection H as -> ->.
    rewrite Ascii.eqb_refl. simpl. now apply IH.
Qed.

Lemma pystr_eqb_refl (a : pystr) : pystr_eqb a a = true.
Proof. now apply pystr_eqb_eq. Qed.

Lemma mem_In (x : pystr) (xs : list pystr) : mem x xs = true <-> In x xs.
Proof.
  unfold mem. rewrite existsb_exists. split.
  - intros [y [Hy Heq]]. apply pystr_eqb_eq in Heq. now subst.
  - intros H. exists x. split; [assumption | apply pystr_eqb_refl].
Qed.

Ltac each_char c := destruct c as [[] [] [] [] [] [] [] []].

Lemma lower_char_idem (c : ascii) : lower_char (lower_char c) = lower_char c.
Proof. each_char c; vm_compute; reflexivity. Qed.


Lemma lower_is_lowered (s : pystr) : Forall is_lowered (lower s).
Proof.
  induction s as [|c s IH]; simpl; constructor; auto.
  apply lower_char_idem.
Qed.

Lemma lower_fixed (s : pystr) : Forall is_lowered s -> lower s = s.
Proof.
  induction 1 as [|c s Hc _ IH]; simpl; [reflexivity|].
  unfold is_lowered in Hc. now rewrite Hc, IH.
Qed.

Lemma lower_idem (s : pystr) : lower (lower s) = lower s.
Proof. apply lower_fixed, lower_is_lowered. Qed.

Lemma startswith_app (p s : pystr) :
  startswith p s = true <-> exists rest, s = p ++ rest.
Proof.
  revert s; induction p as [|a p IH]; intros s; simpl.
  - split; [intros _; now exists s | reflexivity].
  - destruct s as [|b s].
    + split; [discriminate | intros [r Hr]; discriminate].
    + rewrite andb_true_iff, Ascii.eqb_eq, IH. split.
      * intros [-> [r ->]]. now exists r.
      * intros [r Hr]. injection Hr as -> ->. split; [reflexivity | now exists r].
Qed.

Lemma startswith_refl (s : pystr) : startswith s s = true.
Proof. apply startswith_app. exists []. now rewrite app_nil_r. Qed.

Lemma contains_app (p s : pystr) :
  contains p s = true <-> exists pre post, s = pre ++ p ++ post.
Proof.
  induction s as [|c s IH].
  - simpl. rewrite orb_false_r, startswith_app. split.
    + intros [r Hr]. now exists [], r.
    + intros [pre [post H]]. destruct pre; [now exists post | discriminate].
  - simpl contains. rewrite orb_true_iff, startswith_app, IH. split.
    + intros [[r Hr] | [pre [post H]]].
      * now exists [], r.
      * exists (c :: pre), post. now rewrite H.
    + intros [pre [post H]]. destruct pre as [|x pre].
      * left. now exists post.
      * right. injection H as _ H. now exists pre, post.
Qed.


Lemma contains_trans (p t s : pystr) :
  contains p t = true -> contains t s = true -> contains p s = true.
Proof.
  rewrite !contains_app. intros [a [b ->]] [pre [post ->]].
  exists (pre ++ a), (b ++ post). now rewrite <- !app_assoc.
Qed.

Lemma contains_tail (p : pystr) (c : ascii) (s : pystr) :
  contains p (c :: s) = false -> contains p s = false.
Proof. simpl. intros H. now apply orb_false_iff in H. Qed.

Lemma contains_head (p : pystr) (c : ascii) (s : pystr) :
  contains p (c :: s) = false -> startswith p (c :: s) = false.
Proof. simpl contains. intros H. now apply orb_false_iff in H. Qed.

(** A character foreign to [p] stops any match of [p] that runs into it. *)
Lemma startswith_barrier (c : ascii) (b : pystr) :
  forall p a, ~ In c p -> startswith p a = false ->
              startswith p (a ++ c :: b) = false.
Proof.
  induction p as [|p0 p IH]; intros a Hc Hsw; [discriminate|].
  destruct a as [|x a]; simpl in *.
  - destruct (Ascii.eqb_spec p0 c) as [->|]; [tauto | reflexivity].
  - destruct (Ascii.eqb p0 x); [|reflexivity]. simpl in *.
    apply IH; tauto.
Qed.

Lemma contains_barrier (p : pystr) (c : ascii) (a b : pystr) :
  p <> [] -> ~ In c p ->
  contains p a = false -> contains p b = false ->
  contains p (a ++ c :: b) = false.
Proof.
  intros Hp Hc Ha Hb. induction a as [|x a IH].
  - simpl app. simpl contains. rewrite Hb, orb_false_r.
    apply (startswith_barrier c b p []); [assumption|].
    destruct p; [congruence | reflexivity].
  - change ((x :: a) ++ c :: b) with (x :: (a ++ c :: b)).
    simpl contains. rewrite IH by now apply contains_tail in Ha.
    rewrite orb_false_r.
    apply (startswith_barrier c b p (x :: a)); [assumption|].
    now apply contains_head.
Qed.

(** ** replace *)

Lemma replace_scan_cons (old new : pystr) (c : ascii) (s : pystr) :
  replace_scan old new O (c :: s) =
  if startswith old (c :: s)
  then new ++ replace_scan old new (Nat.pred (List.length old)) s
  else c :: replace_scan old new O s.
Proof. reflexivity. Qed.

Lemma replace_scan_skip (old new : pystr) (k : nat) (c : ascii) (s : pystr) :
  replace_scan old new (S k) (c :: s) = replace_scan old new k s.
Proof. reflexivity. Qed.



Lemma replace_scan_Forall (P : ascii -> Prop) (old new : pystr) :
  Forall P new ->
  forall s k, Forall P s -> Forall P (replace_scan old new k s).
Proof.
  intros Hnew. induction s as [|c s IH]; intros k Hs; [constructor|].
  inversion Hs; subst. destruct k; [|rewrite replace_scan_skip; now apply IH].
  rewrite replace_scan_cons. destruct (startswith old (c :: s)).
  - apply Forall_app. split; [assumption | now apply IH].
  - constructor; [assumption | now apply IH].
Qed.

(** The output of the scan begins with [w] only if the input does, when no
    character of [w] can come from a replacement. *)
Lemma replace_scan_startswith (old : pystr) (d : ascii) (new' : pystr) :
  forall w, ~ In d w ->
  forall s, startswith w s = false ->
            startswith w (replace_scan old (d :: new') O s) = false.
Proof.
  induction w as [|a w IH]; intros Hd s Hs; [discriminate|].
  destruct s as [|c s]; [reflexivity|].
  rewrite replace_scan_cons. destruct (startswith old (c :: s)).
  - simpl. destruct (Ascii.eqb_spec a d) as [->|]; [|reflexivity].
    exfalso. apply Hd. now left.
  - simpl in Hs |- *. destruct (Ascii.eqb a c); [|reflexivity]. simpl in *.
    apply IH; [tauto | assumption].
Qed.

(** After [.replace('.net', 'dotnet')] no [.net] is left. *)
Lemma replace_dotnet_gone (s : pystr) (k : nat) :
  contains (str ".net") (replace_scan (str ".net") (str "dotnet") k s) = false.
Proof.
  revert k. induction s as [|c s IH]; intros k; [reflexivity|].
  destruct k; [|rewrite replace_scan_skip; apply IH].
  rewrite replace_scan_cons.
  destruct (startswith (str ".net") (c :: s)) eqn:Hsw.
  - specialize (IH (Nat.pred (List.length (str ".net")))).
    remember (replace_scan (str ".net") (str "dotnet")
                (Nat.pred (List.length (str ".net"))) s) as out.
    change (str "dotnet" ++ out) with
      ("d"%char :: "o"%char :: "t"%char :: "n"%char :: "e"%char :: "t"%char :: out).
    change (contains (str ".net") out = false) in IH.
    unfold contains; fold (contains (str ".net") out). rewrite IH.
    reflexivity.
  - specialize (IH O).
    remember (replace_scan (str ".net") (str "dotnet") O s) as out.
    unfold contains; fold (contains (str ".net") out). rewrite IH, orb_false_r.
    change (str ".net") with ("."%char :: str "net") in Hsw |- *.
    unfold startswith in Hsw |- *; fold startswith in Hsw |- *.
    destruct (Ascii.eqb "." c); [|reflexivity].
    rewrite andb_true_l in Hsw |- *. subst out.
    apply (replace_scan_startswith _ "d"%char (str "otnet")); [|assumption].
    vm_compute. intros [H|[H|[H|[]]]]; discriminate.
Qed.

(** ** split and join *)

Lemma split_cons_space (c : ascii) (s : pystr) :
  is_space c = true -> split (c :: s) = split s.
Proof. intros H. simpl. now rewrite H. Qed.

(** A string that starts a token has a first token, and begins with it. *)
Lemma split_first (s : pystr) :
  starts_token s = true ->
  exists t ts post, split s = t :: ts /\ s = t ++ post.
Proof.
  induction s as [|c s IH]; [discriminate|].
  intros Hc. simpl in Hc. apply negb_true_iff in Hc.
  simpl. rewrite Hc. destruct (starts_token s) eqn:Hs.
  - destruct (IH eq_refl) as [t [ts [post [Hsp Heq]]]].
    rewrite Hsp. exists (c :: t), ts, post. now rewrite Heq.
  - now exists [c], (split s), s.
Qed.

(** Every token of [s.split()] is a piece of [s]. *)
Lemma split_pieces (s : pystr) :
  forall t, In t (split s) -> exists pre post, s = pre ++ t ++ post.
Proof.
  induction s as [|c s IH]; intros t Hin; [destruct Hin|].
  simpl in Hin. destruct (is_space c).
  - destruct (IH t Hin) as [pre [post ->]]. now exists (c :: pre), post.
  - destruct (starts_token s) eqn:Hs.
    + destruct (split_first s Hs) as [t0 [ts [post0 [Hsp Heq]]]].
      rewrite Hsp in Hin, IH. destruct Hin as [<- | Hin].
      * exists [], post0. now rewrite Heq.
      * destruct (IH t (or_intror Hin)) as [pre [post ->]].
        now exists (c :: pre), post.
    + destruct Hin as [<- | Hin].
      * now exists [], s.
      * destruct (IH t Hin) as [pre [post ->]]. now exists (c :: pre), post.
Qed.

Lemma split_tokens (P : ascii -> Prop) (s : pystr) :
  Forall P s -> Forall (fun t => is_token t /\ Forall P t) (split s).
Proof.
  induction 1 as [|c s Hc Hs IH]; [constructor|].
  simpl. destruct (is_space c) eqn:Hsp; [assumption|].
  assert (Hone : is_token [c] /\ Forall P [c]).
  { repeat split; try discriminate; repeat constructor; assumption. }
  destruct (starts_token s).
  - destruct (split s) as [|t ts]; [now constructor|].
    inversion IH as [|? ? [[_ Ht] HPt] Hts]; subst. constructor; [|assumption].
    repeat split; try discriminate; constructor; assumption.
  - now constructor.
Qed.

Lemma split_without (p s : pystr) :
  contains p s = false -> Forall (fun t => contains p t = false) (split s).
Proof.
  intros H. apply Forall_forall. intros t Hin.
  destruct (contains p t) eqn:Ht; [|reflexivity].
  rewrite <- H. symmetry. apply (contains_trans p t s Ht).
  apply contains_app. now apply split_pieces.
Qed.

(** A token followed by something that does not continue it is split off
    whole. *)
Lemma split_token_app (t r : pystr) :
  is_token t -> starts_token r = false -> split (t ++ r) = t :: split r.
Proof.
  intros [Hne Hsp] Hr. induction t as [|c t IH]; [congruence|].
  inversion Hsp as [|? ? Hc Ht]; subst.
  change ((c :: t) ++ r) with (c :: (t ++ r)).
  simpl split. rewrite Hc. destruct t as [|c2 t].
  - simpl app. now rewrite Hr.
  - inversion Ht as [|? ? Hc2 _]; subst.
    change (starts_token ((c2 :: t) ++ r)) with (negb (is_space c2)).
    rewrite Hc2. simpl negb. cbv iota.
    now rewrite IH by (try discriminate; assumption).
Qed.

Lemma split_join (ts : list pystr) :
  Forall is_token ts -> split (join (str " ") ts) = ts.
Proof.
  induction 1 as [|t ts Ht Hts IH]; [reflexivity|].
  destruct ts as [|t2 ts].
  - simpl join. rewrite <- (app_nil_r t) at 1.
    now rewrite split_token_app.
  - change (join (str " ") (t :: t2 :: ts))
      with (t ++ " "%char :: join (str " ") (t2 :: ts)).
    rewrite split_token_app; [|assumption|reflexivity].
    rewrite split_cons_space by reflexivity. now rewrite IH.
Qed.

Lemma join_Forall (P : ascii -> Prop) (ts : list pystr) :
  P " "%char -> Forall (Forall P) ts -> Forall P (join (str " ") ts).
Proof.
  intros Hsp. induction 1 as [|t ts Ht Hts IH]; [constructor|].
  destruct ts as [|t2 ts]; [assumption|].
  change (join (str " ") (t :: t2 :: ts))
    with (t ++ " "%char :: join (str " ") (t2 :: ts)).
  apply Forall_app. split; [assumption|]. now constructor.
Qed.

Lemma join_without (p : pystr) (ts : list pystr) :
  p <> [] -> ~ In " "%char p ->
  Forall (fun t => contains p t = false) ts ->
  contains p (join (str " ") ts) = false.
Proof.
  intros Hp Hsp. induction 1 as [|t ts Ht Hts IH].
  - destruct p; [congruence | reflexivity].
  - destruct ts as [|t2 ts]; [assumption|].
    change (join (str " ") (t :: t2 :: ts))
      with (t ++ " "%char :: join (str " ") (t2 :: ts)).
    now apply contains_barrier.
Qed.

Lemma filter_twice {A : Type} (f : A -> bool) (l : list A) :
  filter f (filter f l) = filter f l.
Proof.
  induction l as [|x l IH]; [reflexivity|].
  simpl. destruct (f x) eqn:Hx; [|assumption].
  simpl. now rewrite Hx, IH.
Qed.

(* ================================================================== *)
(** * The query normalizer *)
(* ================================================================== *)

Lemma apply_aliases_eq (q : pystr) :
  apply_aliases q =
  if contains (str ".net") q then replace (str ".net") (str "dotnet") q else q.
Proof. reflexivity. Qed.

Lemma apply_aliases_fixed (q : pystr) :
  contains (str ".net") q = false -> apply_aliases q = q.
Proof. intros H. now rewrite apply_aliases_eq, H. Qed.

Lemma normalized_no_alias (raw : pystr) :
  contains (str ".net") (normalized_query raw) = false.
Proof.
  unfold normalized_query. rewrite apply_aliases_eq.
  destruct (contains (str ".net") (lower raw)) eqn:H; [|assumption].
  apply replace_dotnet_gone.
Qed.

Lemma normalized_lowered (raw : pystr) : Forall is_lowered (normalized_query raw).
Proof.
  unfold normalized_query. rewrite apply_aliases_eq.
  destruct (contains (str ".net") (lower raw)); [|apply lower_is_lowered].
  apply replace_scan_Forall; [|apply lower_is_lowered].
  repeat constructor.
Qed.

Lemma normalized_fixed (s : pystr) :
  Forall is_lowered s -> contains (str ".net") s = false ->
  normalized_query s = s.
Proof.
  intros Hl Hc. unfold normalized_query.
  rewrite (lower_fixed s Hl). now apply apply_aliases_fixed.
Qed.

Lemma query_parts_tokens (raw : pystr) :
  Forall (fun t => is_token t /\ Forall is_lowered t) (query_parts_of raw).
Proof. apply split_tokens, normalized_lowered. Qed.

Lemma core_parts_incl (raw : pystr) :
  forall t, In t (core_parts_of raw) -> In t (query_parts_of raw).
Proof. intros t H. unfold core_parts_of in H. now apply filter_In in H. Qed.

Lemma core_parts_tokens (raw : pystr) : Forall is_token (core_parts_of raw).
Proof.
  apply Forall_forall. intros t Hin. apply core_parts_incl in Hin.
  pose proof (query_parts_tokens raw) as H.
  rewrite Forall_forall in H. now apply H.
Qed.

Lemma dotnet_no_space : ~ In " "%char (str ".net").
Proof. vm_compute. intros [H|[H|[H|[H|[]]]]]; discriminate. Qed.

(** The core name is a fixed point of lowercasing and of the alias
    substitution. *)
Lemma core_name_normalized (raw : pystr) :
  normalized_query (core_name_of raw) = core_name_of raw.
Proof.
  unfold core_name_of. destruct (core_parts_of raw) as [|p ps] eqn:Hcp.
  - apply normalized_fixed; [apply normalized_lowered | apply normalized_no_alias].
  - rewrite <- Hcp. apply normalized_fixed.
    + apply join_Forall; [reflexivity|].
      apply Forall_forall. intros t Hin. apply core_parts_incl in Hin.
      pose proof (query_parts_tokens raw) as H.
      rewrite Forall_forall in H. now apply H.
    + apply join_without; [discriminate | apply dotnet_no_space |].
      apply Forall_forall. intros t Hin. apply core_parts_incl in Hin.
      pose proof (split_without _ _ (normalized_no_alias raw)) as H.
      rewrite Forall_forall in H. now apply H.
Qed.

(** The tokens of the core name: the core tokens, or every token when
    there is no core token. *)
Lemma core_name_tokens (raw : pystr) :
  split (core_name_of raw) = spec_coreTokens raw.
Proof.
  unfold core_name_of, spec_coreTokens.
  destruct (core_parts_of raw) as [|p ps] eqn:Hcp; [reflexivity|].
  rewrite <- Hcp. apply split_join, core_parts_tokens.
Qed.

(** C5, as stated, fails: a query of stop words only, two of them two
    spaces apart, keeps its two spaces in the core name. *)
Lemma C5_stop_words_keep_their_spacing :
  core_parts_of (str "sdk  cli") = [] /\
  core_name_of (str "sdk  cli") = str "sdk  cli" /\
  spec_coreName (str "sdk  cli") = str "sdk cli" /\
  core_name_of (str "sdk  cli") <> spec_coreName (str "sdk  cli").
Proof. repeat split; try reflexivity. vm_compute. discriminate. Qed.

(** C5 (amended): the whitespace tokens of [core_name] are always the core
    tokens of section 4.1 (the non-stop-word tokens, or all tokens when
    none is left); [core_name] itself is these tokens joined by single
    spaces exactly when some non-stop-word token is left or the normalized
    query already is its tokens joined by single spaces.  When stop-word
    removal empties the sequence, [core_name] is the normalized query
    string unchanged. *)
Theorem C5_core_name_of_normalizer (raw : pystr) :
  split (core_name_of raw) = spec_coreTokens raw /\
  (core_name_of raw = spec_coreName raw <->
   core_parts_of raw <> [] \/
   normalized_query raw = join (str " ") (query_parts_of raw)) /\
  (core_name_of raw = join (str " ") (core_parts_of raw) \/
   core_parts_of raw = [] /\ core_name_of raw = normalized_query raw).
Proof.
  split; [apply core_name_tokens|].
  unfold core_name_of, spec_coreName, spec_coreTokens.
  destruct (core_parts_of raw) as [|p ps] eqn:Hcp.
  - split; [|right; now split]. split.
    + intros H. now right.
    + intros [H | H]; [congruence | assumption].
  - split; [|now left]. split; [intros _; left; discriminate | reflexivity].
Qed.

Lemma core_parts_of_core_name (raw : pystr) :
  core_parts_of (core_name_of raw) = core_parts_of raw.
Proof.
  assert (Hqp : query_parts_of (core_name_of raw) = spec_coreTokens raw).
  { unfold query_parts_of. rewrite core_name_normalized. apply core_name_tokens. }
  unfold core_parts_of at 1. rewrite Hqp. unfold spec_coreTokens.
  destruct (core_parts_of raw) as [|p ps] eqn:Hcp.
  - exact Hcp.
  - rewrite <- Hcp. apply filter_twice.
Qed.

(** C8: stop-word removal is idempotent: the core name of a core name is
    that core name. *)
Theorem C8_core_name_idempotent (raw : pystr) :
  core_name_of (core_name_of raw) = core_name_of raw.
Proof.
  unfold core_name_of at 1.
  rewrite core_parts_of_core_name, core_name_normalized.
  unfold core_name_of.
  destruct (core_parts_of raw); reflexivity.
Qed.

(* ================================================================== *)
(** * Ranking *)
(* ================================================================== *)

Lemma insert_desc_perm {A : Type} (x : A * Z) (l : list (A * Z)) :
  Permutation (insert_desc x l) (x :: l).
Proof.
  induction l as [|y l IH]; simpl; [reflexivity|].
  destruct (snd x <? snd y); [|reflexivity].
  rewrite IH. apply perm_swap.
Qed.

Lemma sort_desc_perm {A : Type} (l : list (A * Z)) :
  Permutation (sort_desc l) l.
Proof.
  induction l as [|x l IH]; simpl; [reflexivity|].
  rewrite insert_desc_perm. now constructor.
Qed.

Lemma sort_desc_In {A : Type} (l : list (A * Z)) (x : A * Z) :
  In x (sort_desc l) <-> In x l.
Proof.
  split; apply Permutation_in;
    [apply sort_desc_perm | symmetry; apply sort_desc_perm].
Qed.

Lemma sort_desc_length {A : Type} (l : list (A * Z)) :
  List.length (sort_desc l) = List.length l.
Proof. apply Permutation_length, sort_desc_perm. Qed.

Lemma insert_desc_ranked {A : Type} (x : A * Z) (l : list (A * Z)) :
  ranked l -> ranked (insert_desc x l).
Proof.
  unfold ranked. induction l as [|y l IH]; intros Hl; simpl.
  - repeat constructor.
  - apply Sorted_inv in Hl as [Hl Hy].
    destruct (snd x <? snd y) eqn:Hxy.
    + apply Z.ltb_lt in Hxy. constructor; [now apply IH|].
      destruct l as [|z l]; simpl.
      * constructor. lia.
      * apply HdRel_inv in Hy.
        destruct (snd x <? snd z); constructor; lia.
    + apply Z.ltb_ge in Hxy. repeat constructor; assumption.
Qed.

Lemma sort_desc_ranked {A : Type} (l : list (A * Z)) : ranked (sort_desc l).
Proof.
  induction l as [|x l IH]; simpl; [constructor | now apply insert_desc_ranked].
Qed.

Lemma ranked_scores {A : Type} (l : list (A * Z)) :
  ranked l -> Sorted Z.ge (map snd l).
Proof.
  unfold ranked. induction 1 as [|x l _ IH Hx]; simpl; constructor;
    [assumption|].
  destruct Hx; simpl; constructor. lia.
Qed.

Lemma In_firstn {A : Type} (k : nat) (l : list A) (x : A) :
  In x (firstn k l) -> In x l.
Proof.
  intros H. rewrite <- (firstn_skipn k l). apply in_or_app. now left.
Qed.

Lemma NoDup_firstn_of {A : Type} (k : nat) (l : list A) :
  NoDup l -> NoDup (firstn k l).
Proof.
  intros H. rewrite <- (firstn_skipn k l) in H.
  now apply NoDup_app_remove_r in H.
Qed.

Lemma NoDup_keys_filter {A B : Type} (f : A * B -> bool) (l : list (A * B)) :
  NoDup (map fst l) -> NoDup (map fst (filter f l)).
Proof.
  induction l as [|x l IH]; simpl; intros H; [constructor|].
  inversion H as [|? ? Hx Hl]; subst.
  destruct (f x); [|now apply IH].
  simpl. constructor; [|now apply IH].
  intros Hin. apply Hx. apply in_map_iff in Hin as [y [Hy Hin]].
  apply filter_In in Hin as [Hin _]. apply in_map_iff. now exists y.
Qed.

Lemma forallb_false_exists {A : Type} (f : A -> bool) (l : list A) :
  forallb f l = false -> exists x, In x l /\ f x = false.
Proof.
  induction l as [|x l IH]; simpl; [discriminate|].
  destruct (f x) eqn:Hx.
  - intros H. destruct (IH H) as [y [Hy Hfy]]. exists y. auto.
  - intros _. exists x. auto.
Qed.

(* ================================================================== *)
(** * The keyword-enforcement rule *)
(* ================================================================== *)

(** The rule drops a candidate exactly when some enforced keyword is a
    query token and occurs neither in the cleaned name nor in the tag
    text. *)
Lemma keyword_rule_discards_iff
  (query_parts : list pystr) (name_clean : pystr) (tags : list pystr) :
  keyword_rule_discards query_parts name_clean tags = true <->
  exists kw, In kw keywords_to_enforce /\ In kw query_parts /\
             contains kw name_clean = false /\
             contains kw (tags_str_of tags) = false.
Proof.
  unfold keyword_rule_discards, should_continue, all_keywords_found_in_tags.
  split.
  - destruct (existsb _ keywords_to_enforce); [|discriminate].
    intros H. apply negb_true_iff in H.
    apply forallb_false_exists in H as [kw [Hin Hkw]].
    exists kw. split; [assumption|].
    destruct (mem kw query_parts) eqn:Hm; [|discriminate].
    apply mem_In in Hm. apply negb_false_iff, andb_true_iff in Hkw.
    destruct Hkw as [H1 H2]. apply negb_true_iff in H1, H2. auto.
  - intros [kw [Hin [Hq [Hn Ht]]]]. apply mem_In in Hq.
    assert (Hs : existsb
                   (fun kw0 => mem kw0 query_parts &&
                               negb (contains kw0 name_clean))
                   keywords_to_enforce = true).
    { apply existsb_exists. exists kw. now rewrite Hq, Hn. }
    rewrite Hs. apply negb_true_iff.
    match goal with |- ?b = false => destruct b eqn:Hall end; [|reflexivity].
    rewrite forallb_forall in Hall. specialize (Hall kw Hin).
    now rewrite Hq, Hn, Ht in Hall.
Qed.

Lemma keyword_rule_keeps_iff
  (query_parts : list pystr) (name_clean : pystr) (tags : list pystr) :
  keyword_rule_discards query_parts name_clean tags = false <->
  forall kw, In kw keywords_to_enforce -> In kw query_parts ->
             contains kw name_clean = true \/
             contains kw (tags_str_of tags) = true.
Proof.
  split.
  - intros H kw Hin Hq.
    destruct (contains kw name_clean) eqn:Hn; [now left|].
    destruct (contains kw (tags_str_of tags)) eqn:Ht; [now right|].
    assert (Hd : keyword_rule_discards query_parts name_clean tags = true).
    { apply keyword_rule_discards_iff. now exists kw. }
    congruence.
  - intros H.
    destruct (keyword_rule_discards query_parts name_clean tags) eqn:Hd;
      [|reflexivity].
    apply keyword_rule_discards_iff in Hd as [kw [Hin [Hq [Hn Ht]]]].
    destruct (H kw Hin Hq); congruence.
Qed.

(* ================================================================== *)
(** * The matching engine *)
(* ================================================================== *)

Section EngineFacts.

Variable WRatio : pystr -> pystr -> Z.
Variable partial_ratio : pystr -> pystr -> Z.

Lemma process_extract_length (query : pystr) (choices : list pystr) (limit : nat) :
  (List.length (process_extract WRatio query choices limit) <= limit)%nat.
Proof. unfold process_extract. apply firstn_le_length. Qed.

Lemma process_extract_In (query : pystr) (choices : list pystr) (limit : nat)
  (name : pystr) (score : Z) :
  In (name, score) (process_extract WRatio query choices limit) ->
  In name choices /\ score = WRatio query name.
Proof.
  unfold process_extract. intros H.
  apply In_firstn, sort_desc_In, in_map_iff in H as [c [Hc Hin]].
  injection Hc as -> ->. auto.
Qed.

Lemma process_extract_NoDup (query : pystr) (choices : list pystr) (limit : nat) :
  NoDup choices -> NoDup (map fst (process_extract WRatio query choices limit)).
Proof.
  intros H. unfold process_extract.
  rewrite <- firstn_map. apply NoDup_firstn_of.
  apply (Permutation_NoDup (l := choices)); [|assumption].
  rewrite (Permutation_map fst (sort_desc_perm _)).
  rewrite map_map. simpl. now rewrite map_id.
Qed.

(** What the returned list holds: the retained candidates the loop body
    appends. *)
Lemma find_matches_In (input_image : pystr)
  (catalog_image_data : list (pystr * list pystr)) (name : pystr) :
  In name (find_matches WRatio partial_ratio input_image catalog_image_data) <->
  exists score,
    In (name, score)
       (process_extract WRatio (normalized_query input_image)
          (dict_keys catalog_image_data) 5) /\
    keeps_match partial_ratio catalog_image_data (query_parts_of input_image)
      (core_name_of input_image) (name, score) = true.
Proof.
  unfold find_matches. rewrite in_map_iff. split.
  - intros [[n s] [Hn Hin]]. simpl in Hn. subst n.
    apply sort_desc_In, filter_In in Hin. now exists s.
  - intros [s [Hin Hk]]. exists (name, s). split; [reflexivity|].
    apply sort_desc_In, filter_In. auto.
Qed.

End EngineFacts.

Lemma keeps_match_true (partial_ratio : pystr -> pystr -> Z)
  (catalog_image_data : list (pystr * list pystr))
  (query_parts : list pystr) (core_name name : pystr) (score : Z) :
  keeps_match partial_ratio catalog_image_data query_parts core_name (name, score) = true <->
  85 <= score /\
  core_rule_keeps partial_ratio core_name (name_clean_of name) = true /\
  keyword_rule_discards query_parts (name_clean_of name)
    (dict_get pystr_eqb catalog_image_data name []) = false.
Proof.
  unfold keeps_match. simpl fst. simpl snd.
  destruct (score <? 85) eqn:Hs.
  - apply Z.ltb_lt in Hs. split; [discriminate | lia].
  - apply Z.ltb_ge in Hs.
    destruct (core_rule_keeps partial_ratio core_name (name_clean_of name)); simpl.
    + rewrite negb_true_iff. tauto.
    + split; [discriminate | intros [_ [H _]]; discriminate].
Qed.

(** ** Names queried verbatim *)






(** The keyword-enforcement rule keeps a candidate exactly when the check
    of no enforced keyword fires. *)
Lemma keyword_rule_keeps_missing
  (query_parts : list pystr) (name_clean : pystr) (tags : list pystr) :
  keyword_rule_discards query_parts name_clean tags = false <->
  forall kw, In kw keywords_to_enforce ->
             keyword_missing query_parts name_clean (tags_str_of tags) kw = false.
Proof.
  rewrite keyword_rule_keeps_iff. unfold keyword_missing.
  split; intros H kw Hkw.
  - destruct (mem kw query_parts) eqn:Hm; [|reflexivity].
    apply mem_In in Hm. destruct (H kw Hkw Hm) as [-> | ->]; simpl;
      [reflexivity | apply andb_false_r].
  - intros Hq. apply mem_In in Hq. specialize (H kw Hkw). rewrite Hq in H.
    simpl in H.
    destruct (contains kw name_clean); [now left|].
    destruct (contains kw (tags_str_of tags)); [now right | discriminate].
Qed.

Section EngineClaims.

Variable WRatio : pystr -> pystr -> Z.
Variable partial_ratio : pystr -> pystr -> Z.

(** C2: [find_matches] returns at most 5 names, and every returned name
    scores at least 85 against the normalized query under the scorer the
    ranking uses. *)
Theorem C2_at_most_five_above_floor
  (input_image : pystr) (catalog_image_data : list (pystr * list pystr)) :
  (List.length (find_matches WRatio partial_ratio input_image catalog_image_data)
   <= 5)%nat /\
  Forall (fun name => 85 <= WRatio (normalized_query input_image) name)
         (find_matches WRatio partial_ratio input_image catalog_image_data).
Proof.
  split.
  - unfold find_matches. rewrite length_map, sort_desc_length.
    eapply Nat.le_trans; [apply filter_length_le|].
    apply process_extract_length.
  - apply Forall_forall. intros name Hin.
    apply find_matches_In in Hin as [score [Hin Hk]].
    apply process_extract_In in Hin as [_ ->].
    now apply keeps_match_true in Hk.
Qed.

(** C10: every returned name is a key of the supplied catalog, and no name
    is returned twice (the keys of a dictionary being distinct). *)
Theorem C10_names_are_distinct_keys
  (input_image : pystr) (catalog_image_data : list (pystr * list pystr)) :
  NoDup (dict_keys catalog_image_data) ->
  (forall name,
      In name (find_matches WRatio partial_ratio input_image catalog_image_data) ->
      In name (dict_keys catalog_image_data)) /\
  NoDup (find_matches WRatio partial_ratio input_image catalog_image_data).
Proof.
  intros Hnd. split.
  - intros name Hin. apply find_matches_In in Hin as [score [Hin _]].
    now apply process_extract_In in Hin.
  - unfold find_matches.
    eapply Permutation_NoDup.
    + symmetry. apply Permutation_map, sort_desc_perm.
    + apply NoDup_keys_filter. now apply process_extract_NoDup.
Qed.

(** The answer is never longer than the catalog; an empty catalog gives
    the empty list; an empty query gives the retained candidates filtered
    by the score floor alone. *)
Lemma find_matches_on_empty_inputs :
  (forall input_image catalog_image_data,
      (List.length (find_matches WRatio partial_ratio input_image catalog_image_data)
       <= List.length catalog_image_data)%nat) /\
  (forall input_image, find_matches WRatio partial_ratio input_image [] = []) /\
  (forall catalog_image_data,
      find_matches WRatio partial_ratio [] catalog_image_data =
      map fst (sort_desc (filter (fun m => 85 <=? snd m)
                            (process_extract WRatio [] (dict_keys catalog_image_data) 5)))).
Proof.
  split; [|split].
  - intros q c. unfold find_matches. rewrite length_map, sort_desc_length.
    eapply Nat.le_trans; [apply filter_length_le|].
    unfold process_extract. rewrite length_firstn.
    eapply Nat.le_trans; [apply Nat.le_min_r|].
    rewrite sort_desc_length, length_map. unfold dict_keys.
    now rewrite length_map.
  - reflexivity.
  - intros c. unfold find_matches.
    change (normalized_query []) with (@nil ascii).
    f_equal. f_equal. apply filter_ext. intros [name score].
    unfold keeps_match. simpl fst. simpl snd.
    change (core_name_of []) with (@nil ascii).
    change (query_parts_of []) with (@nil pystr).
    rewrite Z.leb_antisym.
    destruct (score <? 85); reflexivity.
Qed.

(** C4: for a retained candidate that passed the score floor and the
    core-name rule, and for each enforced keyword: if the keyword is a
    query token and occurs neither in the cleaned name nor in the tags
    joined and lowercased, the candidate is dropped; if the keyword occurs
    in the cleaned name or in the tag text, its check does not fire, so
    the candidate is returned unless the check of the other enforced
    keyword fires.  Altogether the candidate is returned exactly when the
    check of no enforced keyword fires. *)
Theorem C4_keyword_enforcement
  (input_image : pystr) (catalog_image_data : list (pystr * list pystr))
  (name : pystr) (score : Z) (kw : pystr) :
  In (name, score)
     (process_extract WRatio (normalized_query input_image)
        (dict_keys catalog_image_data) 5) ->
  85 <= score ->
  core_rule_keeps partial_ratio (core_name_of input_image) (name_clean_of name)
    = true ->
  In kw keywords_to_enforce ->
  (In kw (query_parts_of input_image) ->
   contains kw (name_clean_of name) = false ->
   contains kw (tags_str_of (dict_get pystr_eqb catalog_image_data name []))
     = false ->
   ~ In name (find_matches WRatio partial_ratio input_image catalog_image_data)) /\
  (contains kw (name_clean_of name) = true \/
   contains kw (tags_str_of (dict_get pystr_eqb catalog_image_data name []))
     = true ->
   keyword_missing (query_parts_of input_image) (name_clean_of name)
     (tags_str_of (dict_get pystr_eqb catalog_image_data name [])) kw = false /\
   ((forall kw', In kw' keywords_to_enforce -> kw' <> kw ->
       keyword_missing (query_parts_of input_image) (name_clean_of name)
         (tags_str_of (dict_get pystr_eqb catalog_image_data name [])) kw'
         = false) ->
    In name (find_matches WRatio partial_ratio input_image catalog_image_data))) /\
  (In name (find_matches WRatio partial_ratio input_image catalog_image_data) <->
   forall kw', In kw' keywords_to_enforce ->
     keyword_missing (query_parts_of input_image) (name_clean_of name)
       (tags_str_of (dict_get pystr_eqb catalog_image_data name [])) kw'
       = false).
Proof.
  intros Hin Hscore Hcore Hkw.
  assert (Hiff :
    In name (find_matches WRatio partial_ratio input_image catalog_image_data) <->
    forall kw', In kw' keywords_to_enforce ->
      keyword_missing (query_parts_of input_image) (name_clean_of name)
        (tags_str_of (dict_get pystr_eqb catalog_image_data name [])) kw'
        = false).
  { rewrite <- keyword_rule_keeps_missing, find_matches_In. split.
    - intros [s [_ Hk]]. now apply keeps_match_true in Hk.
    - intros Hk. exists score. split; [assumption|].
      apply keeps_match_true. repeat split; assumption. }
  split; [|split; [|exact Hiff]].
  - intros Hq Hn Ht Hres. pose proof (proj1 Hiff Hres kw Hkw) as Hm.
    clear Hres. rename Hm into Hres.
    unfold keyword_missing in Hres. apply mem_In in Hq.
    rewrite Hq, Hn, Ht in Hres. discriminate.
  - intros Hfound.
    assert (Hmiss :
      keyword_missing (query_parts_of input_image) (name_clean_of name)
        (tags_str_of (dict_get pystr_eqb catalog_image_data name [])) kw = false).
    { unfold keyword_missing. destruct Hfound as [-> | ->]; simpl;
        [apply andb_false_r | now rewrite !andb_false_r]. }
    split; [exact Hmiss|].
    intros Hother. apply Hiff. intros kw' Hkw'.
    destruct (list_eq_dec ascii_dec kw' kw) as [-> | Hne]; [exact Hmiss|].
    now apply Hother.
Qed.


End EngineClaims.

(* ================================================================== *)
(** * The catalog extractor *)
(* ================================================================== *)

(** Counting one more under a key adds one to the total. *)
Lemma dict_set_count {K : Type} (eqb : K -> K -> bool)
  (stats : list (K * Z)) (k : K) :
  sum_values (dict_set eqb stats k (dict_get eqb stats k 0 + 1)) =
  sum_values stats + 1.
Proof.
  induction stats as [|[k' v] stats IH]; simpl; [reflexivity|].
  destruct (eqb k k'); simpl; lia.
Qed.

Lemma extract_body_envelope (items : pyval) :
  extract_body (catalog_of_items items) =
  (elems <- py_iter items ;; extract_loop ([], []) elems).
Proof. reflexivity. Qed.

(** The loop body on a well-formed item: never an exception; a nameless
    item leaves the state alone, a named one counts once. *)
Lemma extract_item_typed (st : extract_state) (r : RawItem) :
  exists st',
    extract_item st (item_to_py r) = Ok st' /\
    sum_values (snd st') =
      sum_values (snd st) + (if has_name r then 1 else 0) /\
    (has_name r = false -> st' = st).
Proof.
  destruct st as [image_data stats].
  destruct r as [[| |[|c nm]] [| |ty] [| |[|t tg]]];
    unfold has_name; cbn -[dict_set dict_get Z.add sum_values];
    eexists; (split; [reflexivity|]); simpl snd;
    (split; [first [apply dict_set_count | lia] | try discriminate; reflexivity]).
Qed.

Lemma extract_loop_typed (items : list RawItem) :
  forall st, exists st',
    extract_loop st (map item_to_py items) = Ok st' /\
    sum_values (snd st') =
      sum_values (snd st) + Z.of_nat (List.length (filter has_name items)) /\
    extract_loop st (map item_to_py (filter has_name items)) = Ok st'.
Proof.
  induction items as [|r items IH]; intros st.
  - exists st. simpl. repeat split; lia.
  - destruct (extract_item_typed st r) as [st1 [Hstep [Hsum Hsame]]].
    destruct (IH st1) as [st' [Hloop [Hsum' Hfilt]]].
    exists st'. simpl map. simpl extract_loop. rewrite Hstep. simpl bind.
    split; [assumption|]. simpl filter.
    destruct (has_name r) eqn:Hn.
    + split.
      * rewrite Hsum', Hsum. simpl List.length. lia.
      * simpl map. simpl extract_loop. rewrite Hstep. exact Hfilt.
    + rewrite (Hsame eq_refl) in *. split; [lia | assumption].
Qed.

(** C1 (the code departs from the claim): an item list holding something
    that is not a record makes [extract_image_names] raise
    [AttributeError], which its handler does not turn into
    [DHISearchError]; and an [items] that is an empty dictionary, or a
    [tagNames] that is a string, is accepted without any failure. *)
Theorem C1_non_record_item_escapes_handler :
  extract_image_names (catalog_of_items (PList [PInt 42])) = Raise AttributeError /\
  extract_image_names (catalog_of_items (PDict [])) = Ok ([], []) /\
  extract_image_names
    (catalog_of_items
       (PList [PDict [(str "name", PStr (str "redis"));
                      (str "tagNames", PStr (str "7"))]])) =
  Ok ([(PStr (str "redis"), PStr (str "7"))], [(PStr (str "Unknown"), 1)]).
Proof. repeat split. Qed.

(** C6: on a well-formed item list [extract_image_names] succeeds; the
    counts of the type statistics add up to the number of items with a
    non-empty name; and leaving the nameless items out changes neither the
    name index nor the statistics. *)
Theorem C6_type_stats_count_named_items (items : list RawItem) :
  exists image_data stats,
    extract_image_names (catalog_of items) = Ok (image_data, stats) /\
    sum_values stats = Z.of_nat (List.length (filter has_name items)) /\
    extract_image_names (catalog_of (filter has_name items)) =
      Ok (image_data, stats).
Proof.
  destruct (extract_loop_typed items ([], [])) as [[image_data stats] [H1 [H2 H3]]].
  exists image_data, stats. unfold extract_image_names, catalog_of.
  rewrite !extract_body_envelope. simpl py_iter. simpl bind.
  rewrite H1, H3. repeat split. exact H2.
Qed.

(* ================================================================== *)
(** * The compliance classifier *)
(* ================================================================== *)

Lemma existsb_perm {A : Type} (f : A -> bool) (l l' : list A) :
  Permutation l l' -> existsb f l = existsb f l'.
Proof.
  induction 1 as [| x l l' _ IH | x y l | l l' l'' _ IH1 _ IH2]; simpl.
  - reflexivity.
  - now rewrite IH.
  - now destruct (f x), (f y).
  - congruence.
Qed.

(** C9: [fips] holds exactly when some tag, lowercased, contains [-fips],
    and [stig] exactly when some tag, lowercased, contains [stig]; no tags
    give two [false]s; and the result does not depend on the order of the
    tags. *)
Theorem C9_check_compliance (tags : list pystr) :
  (fips (check_compliance tags) = true <->
   exists t, In t tags /\ contains (str "-fips") (lower t) = true) /\
  (stig (check_compliance tags) = true <->
   exists t, In t tags /\ contains (str "stig") (lower t) = true) /\
  check_compliance [] = {| fips := false; stig := false |} /\
  (forall tags', Permutation tags tags' ->
                 check_compliance tags' = check_compliance tags).
Proof.
  assert (Hex : forall p,
             existsb (contains p) (map lower tags) = true <->
             exists t, In t tags /\ contains p (lower t) = true).
  { intros p. rewrite existsb_exists. split.
    - intros [x [Hx Hc]]. apply in_map_iff in Hx as [t [<- Ht]]. now exists t.
    - intros [t [Ht Hc]]. exists (lower t). split; [now apply in_map|assumption]. }
  repeat split; try apply Hex.
  intros tags' Hp. unfold check_compliance.
  f_equal; symmetry; apply existsb_perm, Permutation_map, Hp.
Qed.

(* ================================================================== *)
(** * The engine on concrete catalogs *)
(* ================================================================== *)



Ltac distinct_strings :=
  repeat (constructor; [vm_compute; intuition discriminate|]); constructor.



(** C4 at the query [foo cli], the keyword [cli] and a catalog holding
    [foo-cli]: the candidate is retained with score 86 and passes the
    core-name rule, [cli] occurs in its cleaned name, the check of [sdk]
    does not fire, and the candidate is returned. *)
Lemma C4_foo_cli_returned :
  In (str "foo-cli")
     (find_matches spec_ratio spec_partial_ratio (str "foo cli")
        [(str "foo-cli", []); (str "foo", [str "cli-tools"])]).
Proof.
  destruct (C4_keyword_enforcement spec_ratio spec_partial_ratio
              (str "foo cli")
              [(str "foo-cli", []); (str "foo", [str "cli-tools"])]
              (str "foo-cli") 86 (str "cli")
              (or_introl eq_refl)
              ltac:(discriminate)
              eq_refl
              (or_introl eq_refl)) as [_ [Hfound _]].
  apply (Hfound (or_introl eq_refl)).
  intros kw' [<- | [<- | []]] Hne; [now destruct Hne | reflexivity].
Defined.

(** C10 at a catalog of three names queried with [Redis]: the answer
    consists of distinct keys of the catalog. *)
Lemma C10_redis_catalog :
  (forall name,
      In name (find_matches spec_ratio spec_partial_ratio (str "Redis")
                 [(str "redis", []); (str "redis-cli", []); (str "valkey", [])]) ->
      In name [str "redis"; str "redis-cli"; str "valkey"]) /\
  NoDup (find_matches spec_ratio spec_partial_ratio (str "Redis")
           [(str "redis", []); (str "redis-cli", []); (str "valkey", [])]).
Proof.
  apply (C10_names_are_distinct_keys spec_ratio spec_partial_ratio (str "Redis")
           [(str "redis", []); (str "redis-cli", []); (str "valkey", [])]).
  change (NoDup [str "redis"; str "redis-cli"; str "valkey"]).
  distinct_strings.
Defined.

(** C9 at two tags: in either order they classify alike. *)
Lemma C9_two_tags_swapped :
  check_compliance [str "latest"; str "7-fips-slim"] =
  check_compliance [str "7-fips-slim"; str "latest"].
Proof.
  apply (proj2 (proj2 (proj2 (C9_check_compliance
                                 [str "7-fips-slim"; str "latest"])))).
  apply perm_swap.
Defined.

(* ================================================================== *)
(** * Further properties *)
(* ================================================================== *)

(** X1: the returned names are ranked: along the result the score against
    the normalized query never increases. *)
Theorem find_matches_best_first
  (WRatio partial_ratio : pystr -> pystr -> Z)
  (input_image : pystr) (catalog_image_data : list (pystr * list pystr)) :
  Sorted Z.ge
    (map (WRatio (normalized_query input_image))
       (find_matches WRatio partial_ratio input_image catalog_image_data)).
Proof.
  unfold find_matches.
  set (results := filter _ _).
  assert (Hsc : forall m, In m (sort_desc results) ->
                          WRatio (normalized_query input_image) (fst m) = snd m).
  { intros [name score] Hin.
    apply (proj1 (sort_desc_In results (name, score))) in Hin.
    subst results. apply filter_In in Hin as [Hin _].
    apply process_extract_In in Hin as [_ ->]. reflexivity. }
  rewrite map_map. rewrite (map_ext_in _ snd _ Hsc).
  apply ranked_scores, sort_desc_ranked.
Qed.

(** X2: alias substitution: no normalized query contains [.net];
    [.NET Runtime] becomes [dotnet runtime]. *)
Theorem normalized_query_has_no_alias_key (raw : pystr) :
  contains (str ".net") (normalized_query raw) = false /\
  normalized_query (str ".NET Runtime") = str "dotnet runtime".
Proof. split; [apply normalized_no_alias | reflexivity]. Qed.

Lemma subscript_raises (v : pyval) (k : pystr) (e : exn) :
  subscript v k = Raise e -> e = KeyError \/ e = TypeError.
Proof.
  destruct v; simpl; try (intros H; injection H as <-; now right).
  destruct (find _ d); [discriminate|]. intros H; injection H as <-. now left.
Qed.

Lemma catalog_items_raises (catalog_data : pyval) (e : exn) :
  catalog_items catalog_data = Raise e -> e = KeyError \/ e = TypeError.
Proof.
  unfold catalog_items.
  destruct (subscript catalog_data (str "data")) as [data|e1] eqn:H1; simpl.
  - destruct (subscript data (str "dhiListRepositories")) as [repos|e2] eqn:H2;
      simpl.
    + apply subscript_raises.
    + intros H; injection H as <-. eapply subscript_raises, H2.
  - intros H; injection H as <-. eapply subscript_raises, H1.
Qed.

(** X3: missing nesting: when the path [data / dhiListRepositories / items]
    cannot be followed, [extract_image_names] raises [DHISearchError]. *)
Theorem extract_missing_nesting (catalog_data : pyval) (e : exn) :
  catalog_items catalog_data = Raise e ->
  extract_image_names catalog_data = Raise DHISearchError.
Proof.
  intros H. unfold extract_image_names, extract_body. rewrite H. simpl.
  destruct (catalog_items_raises _ _ H) as [-> | ->]; reflexivity.
Qed.

(** X3 at a response without the [data] key. *)
Lemma extract_missing_nesting_empty_response :
  extract_image_names (PDict []) = Raise DHISearchError.
Proof. exact (extract_missing_nesting (PDict []) KeyError eq_refl). Defined.

(** X4: an item list that begins with anything but a record makes
    [extract_image_names] raise [AttributeError], not [DHISearchError]. *)
Theorem extract_non_record_first (x : pyval) (rest : list pyval) :
  is_record x = false ->
  extract_image_names (catalog_of_items (PList (x :: rest))) =
  Raise AttributeError.
Proof.
  intros H. unfold extract_image_names. rewrite extract_body_envelope.
  destruct x; try reflexivity. discriminate.
Qed.

(** X4 at a list that begins with a string. *)
Lemma extract_non_record_first_string :
  extract_image_names
    (catalog_of_items (PList [PStr (str "redis"); PDict []])) =
  Raise AttributeError.
Proof.
  exact (extract_non_record_first (PStr (str "redis")) [PDict []] eq_refl).
Defined.

(** The examples of section 8 of the specification: the extractor skips the nameless item, the
    classifier finds the FIPS marker, and a keyword that lives in the tags
    satisfies the keyword-enforcement rule. *)
Theorem spec_examples :
  extract_image_names
    (catalog_of
       [ {| item_name := Present (str "redis");
            item_type := Present (str "IMAGE");
            item_tagNames := Present [str "7"; str "7-fips"] |};
         {| item_name := Absent;
            item_type := Present (str "IMAGE");
            item_tagNames := Absent |} ]) =
  Ok ([(PStr (str "redis"), PList [PStr (str "7"); PStr (str "7-fips")])],
      [(PStr (str "IMAGE"), 1)]) /\
  check_compliance [str "7-fips-slim"; str "latest"] =
    {| fips := true; stig := false |} /\
  keyword_rule_discards (query_parts_of (str "foo cli"))
    (name_clean_of (str "foo")) [str "cli-tools"] = false /\
  keyword_rule_discards (query_parts_of (str "foo cli"))
    (name_clean_of (str "foo")) [] = true /\
  keyword_rule_discards (query_parts_of (str "foo cli"))
    (name_clean_of (str "foo-cli")) [] = false.
Proof. repeat split. Qed.

(* ================================================================== *)
(** * Dictionaries: storing and looking up *)
(* ================================================================== *)

Section DictFacts.

Context {K V : Type} (eqb : K -> K -> bool).
Hypothesis eqb_eq : forall a b, eqb a b = true <-> a = b.

Lemma eqb_same (a : K) : eqb a a = true.
Proof. now apply eqb_eq. Qed.

Lemma dict_get_set (d : list (K * V)) (k k' : K) (v dflt : V) :
  dict_get eqb (dict_set eqb d k v) k' dflt =
  if eqb k' k then v else dict_get eqb d k' dflt.
Proof.
  induction d as [|[k0 v0] d IH]; simpl.
  - reflexivity.
  - destruct (eqb k k0) eqn:Hk; simpl.
    + apply eqb_eq in Hk. subst k0.
      destruct (eqb k' k); reflexivity.
    + destruct (eqb k' k0) eqn:Hk'; [|exact IH].
      apply eqb_eq in Hk'. subst k0.
      destruct (eqb k' k) eqn:Hkk; [|reflexivity].
      apply eqb_eq in Hkk. subst k'. rewrite eqb_same in Hk. discriminate.
Qed.

Lemma dict_set_keys (d : list (K * V)) (k : K) (v : V) :
  dict_keys (dict_set eqb d k v) =
  if existsb (eqb k) (dict_keys d) then dict_keys d else dict_keys d ++ [k].
Proof.
  unfold dict_keys. induction d as [|[k0 v0] d IH]; simpl; [reflexivity|].
  destruct (eqb k k0) eqn:Hk; simpl.
  - apply eqb_eq in Hk. now subst k0.
  - rewrite IH. now destruct (existsb (eqb k) (map fst d)).
Qed.

Lemma existsb_eqb_In (k : K) (l : list K) :
  existsb (eqb k) l = true <-> In k l.
Proof.
  rewrite existsb_exists. split.
  - intros [x [Hx Hk]]. apply eqb_eq in Hk. now subst.
  - intros H. exists k. split; [assumption | apply eqb_same].
Qed.

Lemma dict_set_keys_In (d : list (K * V)) (k k' : K) (v : V) :
  In k' (dict_keys (dict_set eqb d k v)) <-> k' = k \/ In k' (dict_keys d).
Proof.
  rewrite dict_set_keys.
  destruct (existsb (eqb k) (dict_keys d)) eqn:Hk.
  - apply existsb_eqb_In in Hk. split; [now right|].
    intros [-> | H]; assumption.
  - rewrite in_app_iff. simpl. intuition.
Qed.

Lemma dict_set_NoDup (d : list (K * V)) (k : K) (v : V) :
  NoDup (dict_keys d) -> NoDup (dict_keys (dict_set eqb d k v)).
Proof.
  intros H. rewrite dict_set_keys.
  destruct (existsb (eqb k) (dict_keys d)) eqn:Hk; [assumption|].
  apply NoDup_app; [assumption | repeat constructor; intros [] |].
  intros x Hx [<- | []].
  apply existsb_eqb_In in Hx. congruence.
Qed.

End DictFacts.

Lemma label_eqb_eq (a b : option pystr) : label_eqb a b = true <-> a = b.
Proof.
  destruct a as [x|], b as [y|]; simpl; try (split; congruence).
  rewrite pystr_eqb_eq. split; congruence.
Qed.

(* ================================================================== *)
(** * The extractor on well-formed items *)
(* ================================================================== *)

Lemma embed_index_set (index : list (pystr * list pystr)) (n : pystr)
  (tags : list pystr) :
  dict_set key_eqb (embed_index index) (PStr n) (PList (map PStr tags)) =
  embed_index (dict_set pystr_eqb index n tags).
Proof.
  induction index as [|[k v] index IH]; simpl; [reflexivity|].
  destruct (pystr_eqb n k); simpl; [reflexivity|]. now rewrite IH.
Qed.

Lemma key_eqb_label (a b : option pystr) :
  key_eqb (embed_label a) (embed_label b) = label_eqb a b.
Proof. destruct a, b; reflexivity. Qed.

Lemma embed_stats_get (stats : list (option pystr * Z)) (k : option pystr) :
  dict_get key_eqb (embed_stats stats) (embed_label k) 0 =
  dict_get label_eqb stats k 0.
Proof.
  induction stats as [|[k0 v0] stats IH]; simpl; [reflexivity|].
  rewrite key_eqb_label. now destruct (label_eqb k k0).
Qed.

Lemma embed_stats_set (stats : list (option pystr * Z)) (k : option pystr) (v : Z) :
  dict_set key_eqb (embed_stats stats) (embed_label k) v =
  embed_stats (dict_set label_eqb stats k v).
Proof.
  induction stats as [|[k0 v0] stats IH]; simpl; [reflexivity|].
  rewrite key_eqb_label. destruct (label_eqb k k0); simpl; [reflexivity|].
  now rewrite IH.
Qed.

Lemma embed_label_hashable (k : option pystr) : hashable (embed_label k) = true.
Proof. now destruct k. Qed.

(** One turn of the loop on a well-formed item is one typed step. *)
Lemma extract_item_step (index : list (pystr * list pystr))
  (stats : list (option pystr * Z)) (r : RawItem) :
  extract_item (embed_index index, embed_stats stats) (item_to_py r) =
  Ok (embed_index (index_step index r), embed_stats (stats_step stats r)).
Proof.
  destruct r as [[| |[|c nm]] [| |ty] [| |[|t tg]]];
    unfold index_step, stats_step, has_name, name_of, tags_of, type_of;
    cbv beta iota delta [item_name item_type item_tagNames];
    try reflexivity;
    rewrite <- embed_index_set, <- embed_stats_set, <- embed_stats_get;
    reflexivity.
Qed.

Lemma extract_loop_steps (items : list RawItem) :
  forall index stats,
    extract_loop (embed_index index, embed_stats stats) (map item_to_py items) =
    Ok (embed_index (fold_left index_step items index),
        embed_stats (fold_left stats_step items stats)).
Proof.
  induction items as [|r items IH]; intros index stats; [reflexivity|].
  rewrite map_cons.
  change (extract_loop ?st (?item :: ?rest))
    with (bind (extract_item st item) (fun st' => extract_loop st' rest)).
  rewrite extract_item_step. apply IH.
Qed.

(** On a well-formed item list [extract_image_names] returns a well-typed
    name index and type statistics: the ones the typed loop computes. *)
Theorem extract_well_formed (items : list RawItem) :
  extract_image_names (catalog_of items) =
  Ok (embed_index (index_of items), embed_stats (stats_of items)).
Proof.
  unfold extract_image_names, catalog_of. rewrite extract_body_envelope.
  simpl py_iter. simpl bind.
  change (@nil (pyval * pyval)) with (embed_index []).
  change (@nil (pyval * Z)) with (embed_stats []).
  now rewrite extract_loop_steps.
Qed.

Lemma find_last {A : Type} (f : A -> bool) (l : list A) (x : A) :
  find f (l ++ [x]) =
  match find f l with
  | Some y => Some y
  | None => if f x then Some x else None
  end.
Proof.
  induction l as [|y l IH]; simpl; [reflexivity|].
  destruct (f y); [reflexivity | exact IH].
Qed.

Lemma find_same {A : Type} (f g : A -> bool) (l : list A) :
  (forall x, f x = g x) -> find f l = find g l.
Proof.
  intros H. induction l as [|y l IH]; simpl; [reflexivity|].
  now rewrite H, IH.
Qed.

Lemma find_head_filter {A : Type} (f : A -> bool) (l : list A) :
  find f l = hd_error (filter f l).
Proof.
  induction l as [|y l IH]; simpl; [reflexivity|].
  destruct (f y); [reflexivity | exact IH].
Qed.

(** With at most one element to find, it does not matter from which end
    one looks. *)
Lemma find_rev_unique {A : Type} (f : A -> bool) (l : list A) :
  (List.length (filter f l) <= 1)%nat -> find f (rev l) = find f l.
Proof.
  intros H. rewrite !find_head_filter, filter_rev.
  destruct (filter f l) as [|x [|y t]]; simpl in *; try reflexivity. lia.
Qed.

Lemma name_is_named (repo_name : pystr) (r : RawItem) :
  repo_name <> [] ->
  name_is repo_name r = has_name r && pystr_eqb repo_name (name_of r).
Proof.
  intros Hne. unfold name_is, has_name, name_of.
  destruct (item_name r) as [| |[|c n]]; try reflexivity.
  destruct repo_name; [congruence | reflexivity].
Qed.

(** ** The name index *)

Lemma index_fold_keys (items : list RawItem) :
  forall index n,
    In n (dict_keys (fold_left index_step items index)) <->
    In n (dict_keys index) \/
    exists r, In r items /\ has_name r = true /\ name_of r = n.
Proof.
  induction items as [|r items IH]; intros index n; simpl.
  - split; [now left | intros [H | [r [[] _]]]; assumption].
  - rewrite IH. unfold index_step at 1. destruct (has_name r) eqn:Hr.
    + rewrite (dict_set_keys_In pystr_eqb pystr_eqb_eq). split.
      * intros [[-> | H] | [r' [Hin H]]].
        -- right. exists r. auto.
        -- now left.
        -- right. exists r'. auto.
      * intros [H | [r' [[<- | Hin] [Hn Hname]]]].
        -- left. now right.
        -- left. left. now symmetry.
        -- right. now exists r'.
    + split.
      * intros [H | [r' [Hin H]]]; [now left|]. right. exists r'. auto.
      * intros [H | [r' [[<- | Hin] [Hn Hname]]]];
          [now left | congruence | right; now exists r'].
Qed.

Lemma index_fold_NoDup (items : list RawItem) :
  forall index,
    NoDup (dict_keys index) ->
    NoDup (dict_keys (fold_left index_step items index)).
Proof.
  induction items as [|r items IH]; intros index H; simpl; [assumption|].
  apply IH. unfold index_step. destruct (has_name r); [|assumption].
  now apply (dict_set_NoDup pystr_eqb pystr_eqb_eq).
Qed.

Lemma index_fold_get (items : list RawItem) :
  forall index n dflt,
    dict_get pystr_eqb (fold_left index_step items index) n dflt =
    match find (fun r => has_name r && pystr_eqb n (name_of r)) (rev items) with
    | Some r => tags_of r
    | None => dict_get pystr_eqb index n dflt
    end.
Proof.
  induction items as [|r items IH]; intros index n dflt; simpl; [reflexivity|].
  rewrite IH, find_last.
  destruct (find _ (rev items)); [reflexivity|].
  unfold index_step. destruct (has_name r); simpl; [|reflexivity].
  rewrite (dict_get_set pystr_eqb pystr_eqb_eq).
  now destruct (pystr_eqb n (name_of r)).
Qed.

(** ** The type statistics *)

Lemma stats_fold_get (items : list RawItem) :
  forall stats k,
    dict_get label_eqb (fold_left stats_step items stats) k 0 =
    dict_get label_eqb stats k 0 +
    Z.of_nat (List.length (filter (counted_under k) items)).
Proof.
  induction items as [|r items IH]; intros stats k; simpl; [lia|].
  rewrite IH. unfold stats_step at 1, counted_under at 2.
  destruct (has_name r); simpl; [|reflexivity].
  rewrite (dict_get_set label_eqb label_eqb_eq).
  destruct (label_eqb k (type_of r)) eqn:Hk; simpl List.length; [|lia].
  apply label_eqb_eq in Hk. subst k. lia.
Qed.

(** X6: on a well-formed item list [extract_image_names] returns a
    well-typed name index: its keys are distinct, they are exactly the
    non-empty names of the items, and each name is bound to the tags of
    the last item that carries it (last occurrence wins). *)
Theorem extract_index_content (items : list RawItem) :
  exists index stats,
    extract_image_names (catalog_of items) =
      Ok (embed_index index, embed_stats stats) /\
    NoDup (dict_keys index) /\
    (forall n, In n (dict_keys index) <->
               exists r, In r items /\ has_name r = true /\ name_of r = n) /\
    (forall n, n <> [] ->
               dict_get pystr_eqb index n [] =
               match find (name_is n) (rev items) with
               | Some r => tags_of r
               | None => []
               end).
Proof.
  exists (index_of items), (stats_of items).
  split; [apply extract_well_formed|]. unfold index_of.
  split; [apply index_fold_NoDup; constructor|].
  split.
  - intros n. rewrite index_fold_keys. simpl. tauto.
  - intros n Hn. rewrite index_fold_get.
    rewrite (find_same _ (name_is n)); [reflexivity|].
    intros r. symmetry. now apply name_is_named.
Qed.

(** X7: on a well-formed item list the statistics
    [extract_image_names] returns count, under every type label, the items
    with a non-empty name and that type; an item without a [type] is
    counted under [Unknown]. *)
Theorem extract_stats_content (items : list RawItem) (k : option pystr) :
  exists index stats,
    extract_image_names (catalog_of items) = Ok (index, stats) /\
    dict_get key_eqb stats (embed_label k) 0 =
      Z.of_nat (List.length (filter (counted_under k) items)).
Proof.
  exists (embed_index (index_of items)), (embed_stats (stats_of items)).
  split; [apply extract_well_formed|].
  rewrite embed_stats_get. unfold stats_of. now rewrite stats_fold_get.
Qed.

(* ================================================================== *)
(** * Authentication *)
(* ================================================================== *)

(** X8: [get_jwt_token] returns a token only when both credentials are
    set and not empty and the endpoint answered with a JSON object; the
    token is then truthy, and it is the object's [token] unless that is
    missing or falsy, in which case it is its [access_token].  Without
    credentials the function raises [DHISearchError] whatever the endpoint
    would answer.  A decoded body that is not an object makes it raise
    [AttributeError]. *)
Theorem get_jwt_token_outcomes (username pat : option pystr) (post : http_outcome) :
  (forall token,
      get_jwt_token username pat post = Ok token ->
      truthy token = true /\
      env_unset username = false /\ env_unset pat = false /\
      exists d, post = JsonBody (PDict d) /\
                token = (if truthy (dict_get pystr_eqb d (str "token") PNone)
                         then dict_get pystr_eqb d (str "token") PNone
                         else dict_get pystr_eqb d (str "access_token") PNone)) /\
  (env_unset username || env_unset pat = true ->
   get_jwt_token username pat post = Raise DHISearchError) /\
  (get_jwt_token username pat post = Raise AttributeError <->
   env_unset username || env_unset pat = false /\
   exists data, post = JsonBody data /\ is_record data = false).
Proof.
  unfold get_jwt_token.
  destruct (env_unset username || env_unset pat) eqn:Henv.
  - repeat split; try discriminate.
    intros [H _]. discriminate.
  - apply orb_false_iff in Henv as [Hu Hp].
    destruct post as [|data].
    + repeat split; try discriminate.
      intros [_ [data [H _]]]. discriminate.
    + assert (Hnon : is_record data = false ->
                     py_get data (str "token") PNone = Raise AttributeError).
      { destruct data; try reflexivity. discriminate. }
      destruct (is_record data) eqn:Hrec.
      * destruct data as [ | | | | |d]; try discriminate. simpl py_get.
        simpl bind.
        set (t1 := dict_get pystr_eqb d (str "token") PNone).
        set (t2 := dict_get pystr_eqb d (str "access_token") PNone).
        split; [|split; [discriminate|]].
        -- intros token H.
           destruct (truthy t1) eqn:H1; simpl in H.
           ++ rewrite H1 in H. injection H as <-.
              repeat split; try assumption.
              exists d. split; [reflexivity|]. fold t1 t2. now rewrite H1.
           ++ destruct (truthy t2) eqn:H2; [|discriminate].
              injection H as <-. repeat split; try assumption.
              exists d. split; [reflexivity|]. fold t1 t2. now rewrite H1.
        -- split.
           ++ destruct (truthy t1) eqn:H1; simpl; [rewrite H1; discriminate|].
              destruct (truthy t2); discriminate.
           ++ intros [_ [data [H Hd]]]. injection H as <-. discriminate.
      * rewrite (Hnon eq_refl). simpl bind.
        split; [discriminate|]. split; [discriminate|].
        split; [|reflexivity].
        intros _. split; [reflexivity|]. now exists data.
Qed.

(* ================================================================== *)
(** * Repository tags *)
(* ================================================================== *)

Lemma pystr_eqb_sym (x y : pystr) : pystr_eqb x y = pystr_eqb y x.
Proof.
  destruct (pystr_eqb x y) eqn:H1, (pystr_eqb y x) eqn:H2; try reflexivity.
  - apply pystr_eqb_eq in H1. subst. now rewrite pystr_eqb_refl in H2.
  - apply pystr_eqb_eq in H2. subst. now rewrite pystr_eqb_refl in H1.
Qed.

Lemma item_get_name (r : RawItem) :
  py_get (item_to_py r) (str "name") PNone =
  Ok (match item_name r with Present n => PStr n | _ => PNone end).
Proof. destruct r as [[| |nm] [| |ty] [| |tg]]; reflexivity. Qed.

Lemma item_get_tags (r : RawItem) :
  py_get (item_to_py r) (str "tagNames") (PList []) =
  Ok (match item_tagNames r with
      | Present l => PList (map PStr l)
      | Null => PNone
      | Absent => PList []
      end).
Proof. destruct r as [[| |nm] [| |ty] [| |tg]]; reflexivity. Qed.

Lemma find_repository_cons (r : RawItem) (rest : list pyval) (repo_name : pystr) :
  find_repository (item_to_py r :: rest) repo_name =
  if name_is repo_name r then Ok (PList (map PStr (tags_of r)))
  else find_repository rest repo_name.
Proof.
  change (find_repository (?item :: rest) repo_name)
    with (bind (py_get item (str "name") PNone)
            (fun name =>
               if py_eq_str name repo_name
               then bind (py_get item (str "tagNames") (PList []))
                      (fun tags => Ok (if truthy tags then tags else PList []))
               else find_repository rest repo_name)).
  rewrite item_get_name, item_get_tags. unfold name_is, tags_of, bind.
  destruct (item_name r) as [| |nm]; try reflexivity.
  unfold py_eq_str. rewrite (pystr_eqb_sym nm repo_name).
  destruct (pystr_eqb repo_name nm); [|reflexivity].
  now destruct (item_tagNames r) as [| |[|t tg]].
Qed.

Lemma find_repository_typed (items : list RawItem) (repo_name : pystr) :
  find_repository (map item_to_py items) repo_name =
  match find (name_is repo_name) items with
  | Some r => Ok (PList (map PStr (tags_of r)))
  | None => Raise DHISearchError
  end.
Proof.
  induction items as [|r items IH]; [reflexivity|].
  rewrite map_cons, find_repository_cons. simpl find.
  now destruct (name_is repo_name r).
Qed.

Lemma get_repository_tags_typed
  (username pat : option pystr) (auth_post : http_outcome) (token : pyval)
  (items : list RawItem) (repo_name : pystr) :
  get_jwt_token username pat auth_post = Ok token ->
  get_repository_tags username pat auth_post (JsonBody (catalog_of items))
    repo_name =
  match find (name_is repo_name) items with
  | Some r => Ok (PList (map PStr (tags_of r)))
  | None => Raise DHISearchError
  end.
Proof.
  intros Htok. unfold get_repository_tags. rewrite Htok. simpl bind.
  unfold repository_tags_body, catalog_of.
  change (catalog_items (catalog_of_items ?v)) with (Ok v).
  simpl bind. rewrite find_repository_typed.
  now destruct (find (name_is repo_name) items).
Qed.

Lemma embed_index_keys (index : list (pystr * list pystr)) :
  dict_keys (embed_index index) = map PStr (dict_keys index).
Proof.
  unfold dict_keys, embed_index. rewrite !map_map. reflexivity.
Qed.

Lemma embed_index_get (index : list (pystr * list pystr)) (n : pystr)
  (dflt : pyval) :
  In n (dict_keys index) ->
  dict_get key_eqb (embed_index index) (PStr n) dflt =
  PList (map PStr (dict_get pystr_eqb index n [])).
Proof.
  induction index as [|[k v] index IH]; simpl; [intros []|].
  intros [<- | H].
  - now rewrite pystr_eqb_refl.
  - destruct (pystr_eqb n k); [reflexivity | now apply IH].
Qed.

Lemma name_is_true (repo_name : pystr) (r : RawItem) :
  repo_name <> [] ->
  name_is repo_name r = true <-> has_name r = true /\ name_of r = repo_name.
Proof.
  intros Hne. rewrite (name_is_named _ _ Hne), andb_true_iff, pystr_eqb_eq.
  intuition.
Qed.

Lemma indexed_iff_named (items : list RawItem) (repo_name : pystr) :
  repo_name <> [] ->
  In repo_name (dict_keys (index_of items)) <->
  exists r, In r items /\ name_is repo_name r = true.
Proof.
  intros Hne. unfold index_of. rewrite index_fold_keys. simpl. split.
  - intros [[] | [r [Hin H]]]. exists r. split; [assumption|].
    now apply name_is_true.
  - intros [r [Hin H]]. right. exists r. split; [assumption|].
    now apply name_is_true.
Qed.

(** X9: [get_repository_tags] against the index of [extract_image_names],
    on the same well-formed catalog and for a non-empty repository name.
    The repository is reported missing exactly when its name is no key of
    the index.  When it is found, the tags returned are those of the first
    item of that name, while the index holds those of the last one; so the
    two agree whenever at most one item carries the name. *)
Theorem repository_tags_and_index
  (username pat : option pystr) (auth_post : http_outcome) (token : pyval)
  (items : list RawItem) (repo_name : pystr)
  (image_data : list (pyval * pyval)) (stats : list (pyval * Z)) :
  get_jwt_token username pat auth_post = Ok token ->
  repo_name <> [] ->
  extract_image_names (catalog_of items) = Ok (image_data, stats) ->
  (get_repository_tags username pat auth_post (JsonBody (catalog_of items))
     repo_name = Raise DHISearchError <->
   ~ In (PStr repo_name) (dict_keys image_data)) /\
  (forall first last,
      find (name_is repo_name) items = Some first ->
      find (name_is repo_name) (rev items) = Some last ->
      get_repository_tags username pat auth_post (JsonBody (catalog_of items))
        repo_name = Ok (PList (map PStr (tags_of first))) /\
      dict_get key_eqb image_data (PStr repo_name) PNone =
        PList (map PStr (tags_of last))) /\
  ((List.length (filter (name_is repo_name) items) <= 1)%nat ->
   forall tags,
     get_repository_tags username pat auth_post (JsonBody (catalog_of items))
       repo_name = Ok tags ->
     dict_get key_eqb image_data (PStr repo_name) PNone = tags).
Proof.
  intros Htok Hne Hex.
  rewrite extract_well_formed in Hex. injection Hex as <- <-.
  rewrite (get_repository_tags_typed _ _ _ _ _ _ Htok).
  assert (Hlast : forall last,
             find (name_is repo_name) (rev items) = Some last ->
             dict_get key_eqb (embed_index (index_of items)) (PStr repo_name) PNone =
             PList (map PStr (tags_of last))).
  { intros last Hl.
    assert (Hin : In repo_name (dict_keys (index_of items))).
    { apply indexed_iff_named; [assumption|].
      apply find_some in Hl as [Hin Hn]. exists last.
      split; [now apply in_rev|assumption]. }
    rewrite (embed_index_get _ _ _ Hin). unfold index_of.
    rewrite index_fold_get.
    rewrite (find_same _ (name_is repo_name)), Hl; [reflexivity|].
    intros r. symmetry. now apply name_is_named. }
  split; [|split].
  - rewrite embed_index_keys. split.
    + destruct (find (name_is repo_name) items) eqn:Hf; [discriminate|].
      intros _ Hin. apply in_map_iff in Hin as [n [Hn Hin]].
      injection Hn as ->.
      apply indexed_iff_named in Hin as [r [Hr Hnamed]]; [|assumption].
      pose proof (find_none _ _ Hf r Hr). congruence.
    + intros Hnot. destruct (find (name_is repo_name) items) eqn:Hf;
        [|reflexivity].
      exfalso. apply Hnot. apply in_map.
      apply indexed_iff_named; [assumption|].
      apply find_some in Hf as [Hin Hn]. now exists r.
  - intros first last Hf Hl. rewrite Hf. split; [reflexivity|].
    now apply Hlast.
  - intros Huniq tags.
    destruct (find (name_is repo_name) items) as [first|] eqn:Hf;
      [|discriminate].
    intros H. injection H as <-. apply Hlast.
    now rewrite find_rev_unique.
Qed.

(** X9 at a catalog with two items named [redis]: the lookup answers with
    the tags of the first, the index holds the tags of the second. *)
Lemma repository_tags_and_index_redis :
  get_repository_tags (Some (str "me")) (Some (str "pat"))
    (JsonBody (PDict [(str "token", PStr (str "jwt"))]))
    (JsonBody (catalog_of
       [ {| item_name := Present (str "redis"); item_type := Absent;
            item_tagNames := Present [str "7"] |};
         {| item_name := Present (str "redis"); item_type := Absent;
            item_tagNames := Present [str "8"] |} ]))
    (str "redis") = Ok (PList [PStr (str "7")]) /\
  dict_get key_eqb
    [(PStr (str "redis"), PList [PStr (str "8")])] (PStr (str "redis")) PNone =
  PList [PStr (str "8")].
Proof.
  refine (proj1 (proj2 (repository_tags_and_index
            (Some (str "me")) (Some (str "pat"))
            (JsonBody (PDict [(str "token", PStr (str "jwt"))]))
            (PStr (str "jwt"))
            [ {| item_name := Present (str "redis"); item_type := Absent;
                 item_tagNames := Present [str "7"] |};
              {| item_name := Present (str "redis"); item_type := Absent;
                 item_tagNames := Present [str "8"] |} ]
            (str "redis")
            [(PStr (str "redis"), PList [PStr (str "8")])]
            [(PStr (str "Unknown"), 2)]
            eq_refl _ eq_refl)) _ _ eq_refl eq_refl).
  discriminate.
Defined.

(* ================================================================== *)
(** * Support information *)
(* ================================================================== *)

(** X10: when the answer to the repository query is an object whose
    [data], or whose [dhiRepository] under [data], is present but not an
    object ([null], say), [get_tag_support_info] raises [AttributeError]:
    the chained [.get] fails and the handler catches only [KeyError] and
    [TypeError]. *)
Theorem support_info_null_repository
  (username pat : option pystr) (auth_post : http_outcome) (token : pyval)
  (d : list (pystr * pyval)) (repo_name tag : pystr) :
  get_jwt_token username pat auth_post = Ok token ->
  is_record (dict_get pystr_eqb d (str "data") (PDict [])) = false \/
  (exists dd,
      dict_get pystr_eqb d (str "data") (PDict []) = PDict dd /\
      is_record (dict_get pystr_eqb dd (str "dhiRepository") (PDict [])) = false) ->
  get_tag_support_info username pat auth_post (JsonBody (PDict d)) repo_name tag =
  Raise AttributeError.
Proof.
  intros Htok H. unfold get_tag_support_info. rewrite Htok. simpl bind.
  unfold support_info_body. simpl py_get at 1. simpl bind.
  destruct H as [H | [dd [Hd H]]].
  - destruct (dict_get pystr_eqb d (str "data") (PDict [])); try reflexivity.
    discriminate.
  - rewrite Hd. simpl py_get at 1. simpl bind.
    destruct (dict_get pystr_eqb dd (str "dhiRepository") (PDict []));
      try reflexivity.
    discriminate.
Qed.

(** X10 at the answer [{"data": {"dhiRepository": null}}]. *)
Lemma support_info_null_repository_answer :
  get_tag_support_info (Some (str "me")) (Some (str "pat"))
    (JsonBody (PDict [(str "token", PStr (str "jwt"))]))
    (JsonBody (PDict [(str "data", PDict [(str "dhiRepository", PNone)])]))
    (str "redis") (str "7") = Raise AttributeError.
Proof.
  apply (support_info_null_repository
           (Some (str "me")) (Some (str "pat"))
           (JsonBody (PDict [(str "token", PStr (str "jwt"))]))
           (PStr (str "jwt")) _ _ _ eq_refl).
  right. exists [(str "dhiRepository", PNone)]. split; reflexivity.
Defined.

Lemma find_tag_definition_cons (d : TagDefinition) (rest : list pyval)
  (repo_name tag : pystr) :
  find_tag_definition (def_to_py d :: rest) repo_name tag =
  if mem tag (def_tagNames d)
  then Ok (support_found repo_name tag (def_displayName d)
             (def_endOfLife d) (def_endOfSupport d))
  else find_tag_definition rest repo_name tag.
Proof.
  assert (Hin : py_in tag (PList (map PStr (def_tagNames d))) =
                Ok (mem tag (def_tagNames d))).
  { unfold py_in, mem. f_equal. induction (def_tagNames d) as [|t l IH];
      [reflexivity|].
    simpl. now rewrite IH, (pystr_eqb_sym t tag). }
  change (find_tag_definition (def_to_py d :: rest) repo_name tag)
    with (bind (py_in tag (PList (map PStr (def_tagNames d))))
            (fun found =>
               if found
               then Ok (support_found repo_name tag (def_displayName d)
                          (def_endOfLife d) (def_endOfSupport d))
               else find_tag_definition rest repo_name tag)).
  now rewrite Hin.
Qed.

Lemma find_tag_definition_typed (defs : list TagDefinition)
  (repo_name tag : pystr) :
  find_tag_definition (map def_to_py defs) repo_name tag =
  Ok (match find (fun d => mem tag (def_tagNames d)) defs with
      | Some d => support_found repo_name tag (def_displayName d)
                    (def_endOfLife d) (def_endOfSupport d)
      | None => support_info repo_name tag
                  (str "Tag '" ++ tag ++
                   str "' not found in support definitions.")
      end).
Proof.
  induction defs as [|d defs IH]; [reflexivity|].
  rewrite map_cons, find_tag_definition_cons. simpl find.
  destruct (mem tag (def_tagNames d)); [reflexivity | exact IH].
Qed.

(** X11: on well-formed support definitions [get_tag_support_info]
    answers with the display name and the two dates of the first
    definition that lists the tag; with the note that the tag was not
    found when no definition lists it; and with the note that there is no
    support information when there are no definitions at all. *)
Theorem support_info_first_definition
  (username pat : option pystr) (auth_post : http_outcome) (token : pyval)
  (defs : list TagDefinition) (repo_name tag : pystr) :
  get_jwt_token username pat auth_post = Ok token ->
  get_tag_support_info username pat auth_post
    (JsonBody (support_response defs)) repo_name tag =
  Ok (match defs with
      | [] => support_info repo_name tag
                (str "No support information found for this repository.")
      | _ :: _ =>
          match find (fun d => mem tag (def_tagNames d)) defs with
          | Some d => support_found repo_name tag (def_displayName d)
                        (def_endOfLife d) (def_endOfSupport d)
          | None => support_info repo_name tag
                      (str "Tag '" ++ tag ++
                       str "' not found in support definitions.")
          end
      end).
Proof.
  intros Htok. unfold get_tag_support_info. rewrite Htok. simpl bind.
  change (support_info_body (support_response defs) repo_name tag)
    with (if truthy (PList (map def_to_py defs))
          then bind (py_iter (PList (map def_to_py defs)))
                 (fun l => find_tag_definition l repo_name tag)
          else Ok (support_info repo_name tag
                     (str "No support information found for this repository."))).
  destruct defs as [|d defs]; [reflexivity|].
  match goal with
  | |- _ = ?rhs =>
      change (handle_parse_errors
                (find_tag_definition (map def_to_py (d :: defs)) repo_name tag)
              = rhs)
  end.
  now rewrite find_tag_definition_typed.
Qed.

(** X11 at two definitions that both list the tag [7]. *)
Lemma support_info_first_definition_two :
  get_tag_support_info (Some (str "me")) (Some (str "pat"))
    (JsonBody (PDict [(str "token", PStr (str "jwt"))]))
    (JsonBody (support_response
       [ {| def_displayName := PStr (str "7.x"); def_tagNames := [str "7"];
            def_endOfLife := PNone; def_endOfSupport := PNone |};
         {| def_displayName := PStr (str "old"); def_tagNames := [str "7"];
            def_endOfLife := PNone; def_endOfSupport := PNone |} ]))
    (str "redis") (str "7") =
  Ok (support_found (str "redis") (str "7") (PStr (str "7.x")) PNone PNone).
Proof.
  exact (support_info_first_definition
           (Some (str "me")) (Some (str "pat"))
           (JsonBody (PDict [(str "token", PStr (str "jwt"))]))
           (PStr (str "jwt")) _ _ _ eq_refl).
Defined.

(* ================================================================== *)
(** * The tools *)
(* ================================================================== *)

Lemma existsb_filter_nil {A : Type} (f : A -> bool) (l : list A) :
  existsb f l = true <-> filter f l <> [].
Proof.
  induction l as [|x l IH]; simpl.
  - split; [discriminate | congruence].
  - destruct (f x); simpl; [split; [discriminate | reflexivity] | exact IH].
Qed.

Lemma existsb_map {A B : Type} (g : A -> B) (f : B -> bool) (l : list A) :
  existsb f (map g l) = existsb (fun x => f (g x)) l.
Proof. induction l as [|x l IH]; simpl; [reflexivity | now rewrite IH]. Qed.

(** X12: [get_compliance_info] is consistent with itself: the [fips] flag
    holds exactly when [fips_tags] is not empty, the [stig] flag exactly
    when [stig_tags] is not empty; the two lists hold, in the order of the
    repository's tags, exactly the tags that contain the marker once
    lowercased; and the summary reads [Supported] for a flag that holds
    and [Not found] for one that does not. *)
Theorem compliance_info_consistent (tags : list pystr) (repository_name : pystr) :
  exists info,
    get_compliance_info (Ok tags) repository_name = Ok (Response info) /\
    repository info = repository_name /\
    (fips (compliance_flags info) = true <-> fips_tags info <> []) /\
    (stig (compliance_flags info) = true <-> stig_tags info <> []) /\
    fips_tags info = filter (fun t => contains (str "-fips") (lower t)) tags /\
    stig_tags info = filter (fun t => contains (str "stig") (lower t)) tags /\
    summary info =
      str "FIPS: " ++
      (match fips_tags info with [] => str "Not found" | _ => str "Supported" end) ++
      str ", STIG: " ++
      (match stig_tags info with [] => str "Not found" | _ => str "Supported" end).
Proof.
  eexists. split; [reflexivity|]. simpl.
  rewrite !existsb_map.
  assert (Hf := existsb_filter_nil (fun t => contains (str "-fips") (lower t)) tags).
  assert (Hs := existsb_filter_nil (fun t => contains (str "stig") (lower t)) tags).
  repeat split; try apply Hf; try apply Hs.
  destruct (existsb (fun t => contains (str "-fips") (lower t)) tags) eqn:Ef,
           (existsb (fun t => contains (str "stig") (lower t)) tags) eqn:Es;
    destruct (filter (fun t => contains (str "-fips") (lower t)) tags) eqn:Ff,
             (filter (fun t => contains (str "stig") (lower t)) tags) eqn:Fs;
    try reflexivity;
    try (exfalso; now apply Hf); try (exfalso; now apply Hs);
    try (assert (false = true) by (apply Hf; discriminate); discriminate);
    try (assert (false = true) by (apply Hs; discriminate); discriminate).
Qed.

Lemma dict_set_In {K V : Type} (eqb : K -> K -> bool)
  (eqb_eq : forall a b, eqb a b = true <-> a = b)
  (d : list (K * V)) (k k' : K) (v v' : V) :
  In (k', v') (dict_set eqb d k v) -> (k' = k /\ v' = v) \/ In (k', v') d.
Proof.
  induction d as [|[k0 v0] d IH]; simpl.
  - intros [H | []]. injection H as <- <-. now left.
  - destruct (eqb k k0) eqn:Hk; simpl.
    + apply eqb_eq in Hk. subst k0. intros [H | H].
      * injection H as <- <-. now left.
      * right. now right.
    + intros [H | H]; [right; now left|].
      destruct (IH H) as [? | ?]; [now left | right; now right].
Qed.

Lemma dict_set_length {K V : Type} (eqb : K -> K -> bool)
  (eqb_eq : forall a b, eqb a b = true <-> a = b)
  (d : list (K * V)) (k : K) (v : V) :
  List.length (dict_set eqb d k v) =
  if existsb (eqb k) (dict_keys d) then List.length d else S (List.length d).
Proof.
  unfold dict_keys. induction d as [|[k0 v0] d IH]; simpl; [reflexivity|].
  destruct (eqb k k0); simpl; [reflexivity|].
  rewrite IH. now destruct (existsb (eqb k) (map fst d)).
Qed.

Section SearchFacts.

Variable WRatio : pystr -> pystr -> Z.
Variable partial_ratio : pystr -> pystr -> Z.
Variable catalog_data : list (pystr * list pystr).

Let matches_of (n : pystr) : list pystr :=
  find_matches WRatio partial_ratio n catalog_data.

Let hit (n : pystr) : bool :=
  match matches_of n with
  | [] => false
  | _ :: _ => true
  end.

Lemma search_step_eq (acc : list (pystr * list pystr) * list pystr) (n : pystr) :
  search_step WRatio partial_ratio catalog_data acc n =
  if hit n
  then (dict_set pystr_eqb (fst acc) n (firstn 3 (matches_of n)), snd acc)
  else (fst acc, snd acc ++ [n]).
Proof.
  unfold search_step, hit, matches_of.
  now destruct (find_matches WRatio partial_ratio n catalog_data).
Qed.

Lemma search_fold_unmatched (names : list pystr) :
  forall acc,
    snd (fold_left (search_step WRatio partial_ratio catalog_data) names acc) =
    snd acc ++ filter (fun n => negb (hit n)) names.
Proof.
  induction names as [|n names IH]; intros acc; simpl.
  - now rewrite app_nil_r.
  - rewrite IH, search_step_eq. destruct (hit n); simpl; [reflexivity|].
    now rewrite <- app_assoc.
Qed.

Lemma search_fold_keys (names : list pystr) :
  forall acc k,
    In k (dict_keys
            (fst (fold_left (search_step WRatio partial_ratio catalog_data)
                    names acc))) <->
    In k (dict_keys (fst acc)) \/ (In k names /\ hit k = true).
Proof.
  induction names as [|n names IH]; intros acc k; simpl.
  - tauto.
  - rewrite IH, search_step_eq. destruct (hit n) eqn:Hn; simpl.
    + rewrite (dict_set_keys_In pystr_eqb pystr_eqb_eq). split.
      * intros [[-> | H] | [H1 H2]]; auto.
      * intros [H | [[<- | H1] H2]]; auto.
    + split.
      * intros [H | [H1 H2]]; auto.
      * intros [H | [[<- | H1] H2]]; auto. congruence.
Qed.

Lemma search_fold_entries (names : list pystr) :
  forall acc k v,
    In (k, v)
       (fst (fold_left (search_step WRatio partial_ratio catalog_data)
               names acc)) ->
    In (k, v) (fst acc) \/
    (In k names /\ hit k = true /\ v = firstn 3 (matches_of k)).
Proof.
  induction names as [|n names IH]; intros acc k v; simpl; [now left|].
  intros H. apply IH in H. rewrite search_step_eq in H.
  destruct (hit n) eqn:Hn; simpl in H.
  - destruct H as [H | [H1 H2]]; [|right; auto].
    apply (dict_set_In pystr_eqb pystr_eqb_eq) in H as [[-> ->] | H]; auto.
  - destruct H as [H | [H1 H2]]; auto.
Qed.

Lemma search_fold_NoDup (names : list pystr) :
  forall acc,
    NoDup (dict_keys (fst acc)) ->
    NoDup (dict_keys
             (fst (fold_left (search_step WRatio partial_ratio catalog_data)
                     names acc))).
Proof.
  induction names as [|n names IH]; intros acc H; simpl; [assumption|].
  apply IH. rewrite search_step_eq. destruct (hit n); simpl; [|assumption].
  now apply (dict_set_NoDup pystr_eqb pystr_eqb_eq).
Qed.

Lemma search_fold_count (names : list pystr) :
  forall acc,
    let out := fold_left (search_step WRatio partial_ratio catalog_data)
                 names acc in
    (List.length (fst out) + List.length (snd out) <=
     List.length (fst acc) + List.length (snd acc) + List.length names)%nat /\
    (NoDup names ->
     (forall k, In k (dict_keys (fst acc)) -> ~ In k names) ->
     (List.length (fst out) + List.length (snd out) =
      List.length (fst acc) + List.length (snd acc) + List.length names)%nat).
Proof.
  induction names as [|n names IH]; intros acc; simpl.
  - split; [lia | intros _ _; lia].
  - destruct (IH (search_step WRatio partial_ratio catalog_data acc n))
      as [Hle Heq].
    rewrite search_step_eq in Hle, Heq |- *.
    destruct (hit n) eqn:Hn; simpl in *.
    + rewrite (dict_set_length pystr_eqb pystr_eqb_eq) in Hle, Heq.
      destruct (existsb (pystr_eqb n) (dict_keys (fst acc))) eqn:Hex.
      * split; [lia|]. intros Hnd Hdis. exfalso.
        apply (existsb_eqb_In pystr_eqb pystr_eqb_eq) in Hex.
        apply (Hdis n Hex). now left.
      * split; [lia|]. intros Hnd Hdis. inversion Hnd as [|? ? Hnot Hnd']; subst.
        rewrite Heq; [lia | assumption |].
        intros k Hk Hin.
        apply (dict_set_keys_In pystr_eqb pystr_eqb_eq) in Hk as [-> | Hk];
          [contradiction|].
        apply (Hdis k Hk). now right.
    + rewrite length_app in Hle, Heq. simpl in Hle, Heq.
      split; [lia|]. intros Hnd Hdis. inversion Hnd as [|? ? Hnot Hnd']; subst.
      rewrite Heq; [lia | assumption |].
      intros k Hk Hin. apply (Hdis k Hk). now right.
Qed.

(** X13: what [search_dhi_catalog] reports.  [total_searched] is the
    number of names asked for.  A name is a key of [matched] exactly when
    [find_matches] returns something for it, and it is then bound to the
    first three of its matches (at least one, at most three); [unmatched]
    lists, in order and with repetitions, the names without a match.  As
    [matched] is a dictionary, a name asked for twice is counted once:
    [matched_count + unmatched_count] never exceeds [total_searched], and
    equals it when no name is asked for twice. *)
Theorem search_summary_counts (stats : list (option pystr * Z))
  (image_names : list pystr) :
  exists r,
    search_dhi_catalog WRatio partial_ratio (Ok (catalog_data, stats))
      image_names = Ok (Response r) /\
    total_searched r = Z.of_nat (List.length image_names) /\
    matched_count r = Z.of_nat (List.length (matched r)) /\
    unmatched_count r = Z.of_nat (List.length (unmatched r)) /\
    matched_count r + unmatched_count r <= total_searched r /\
    (NoDup image_names ->
     matched_count r + unmatched_count r = total_searched r) /\
    NoDup (dict_keys (matched r)) /\
    (forall n, In n (dict_keys (matched r)) <->
               In n image_names /\
               find_matches WRatio partial_ratio n catalog_data <> []) /\
    (forall n ms, In (n, ms) (matched r) ->
                  ms = firstn 3 (find_matches WRatio partial_ratio n catalog_data) /\
                  ms <> [] /\ (List.length ms <= 3)%nat) /\
    unmatched r =
      filter (fun n => match find_matches WRatio partial_ratio n catalog_data with
                       | [] => true
                       | _ :: _ => false
                       end) image_names.
Proof.
  eexists. split; [reflexivity|]. simpl.
  set (out := fold_left (search_step WRatio partial_ratio catalog_data)
                image_names ([], [])).
  destruct (search_fold_count image_names ([], [])) as [Hle Heq].
  fold out in Hle, Heq. simpl in Hle, Heq.
  assert (Hhit : forall n, hit n = true <->
                           find_matches WRatio partial_ratio n catalog_data <> []).
  { intros n. unfold hit, matches_of.
    destruct (find_matches WRatio partial_ratio n catalog_data);
      split; congruence. }
  repeat split.
  - lia.
  - intros Hnd.
    assert (Hdis : forall k : pystr, False -> ~ In k image_names)
      by (intros k []).
    specialize (Heq Hnd Hdis). lia.
  - apply search_fold_NoDup. constructor.
  - apply search_fold_keys in H as [[] | [H _]]. exact H.
  - apply search_fold_keys in H as [[] | [_ H]].
    now apply Hhit.
  - intros [H1 H2]. apply search_fold_keys. right. split; [assumption|].
    now apply Hhit.
  - apply search_fold_entries in H as [[] | [_ [_ H]]]. exact H.
  - apply search_fold_entries in H as [[] | [_ [Hh ->]]].
    unfold hit in Hh. destruct (matches_of n); [discriminate|].
    discriminate.
  - apply search_fold_entries in H as [[] | [_ [_ ->]]].
    apply firstn_le_length.
  - unfold out. rewrite search_fold_unmatched. simpl.
    apply filter_ext. intros n. unfold hit, matches_of.
    now destruct (find_matches WRatio partial_ratio n catalog_data).
Qed.

End SearchFacts.

(** ** Sorting names *)

Lemma pystr_leb_total (a b : pystr) : pystr_leb a b = false -> pystr_leb b a = true.
Proof.
  revert b. induction a as [|x a IH]; intros [|y b]; simpl; try discriminate;
    try reflexivity.
  destruct (nat_of_ascii x <? nat_of_ascii y)%nat eqn:H1; [discriminate|].
  destruct (nat_of_ascii y <? nat_of_ascii x)%nat eqn:H2; [reflexivity|].
  apply IH.
Qed.

Lemma insert_str_perm (x : pystr) (l : list pystr) :
  Permutation (insert_str x l) (x :: l).
Proof.
  induction l as [|y l IH]; simpl; [reflexivity|].
  destruct (pystr_leb x y); [reflexivity|].
  rewrite IH. apply perm_swap.
Qed.

Lemma sorted_str_perm (l : list pystr) : Permutation (sorted_str l) l.
Proof.
  induction l as [|x l IH]; simpl; [reflexivity|].
  rewrite insert_str_perm. now constructor.
Qed.

Lemma insert_str_ascending (x : pystr) (l : list pystr) :
  ascending l -> ascending (insert_str x l).
Proof.
  unfold ascending. induction l as [|y l IH]; intros Hl; simpl.
  - repeat constructor.
  - apply Sorted_inv in Hl as [Hl Hy].
    destruct (pystr_leb x y) eqn:Hxy.
    + repeat constructor; assumption.
    + constructor; [now apply IH|].
      destruct l as [|z l]; simpl.
      * constructor. now apply pystr_leb_total.
      * apply HdRel_inv in Hy.
        destruct (pystr_leb x z); constructor;
          [now apply pystr_leb_total | assumption].
Qed.

Lemma sorted_str_ascending (l : list pystr) : ascending (sorted_str l).
Proof.
  induction l as [|x l IH]; simpl; [constructor | now apply insert_str_ascending].
Qed.

(** ** Typed and untyped results *)

Lemma map_injective {A B : Type} (f : A -> B) :
  (forall x y, f x = f y -> x = y) ->
  forall l l', map f l = map f l' -> l = l'.
Proof.
  intros Hf. induction l as [|x l IH]; intros [|y l'] H; try discriminate;
    [reflexivity|].
  simpl in H. injection H as Hxy Hl. f_equal; [now apply Hf | now apply IH].
Qed.

Lemma embed_index_injective (a b : list (pystr * list pystr)) :
  embed_index a = embed_index b -> a = b.
Proof.
  apply map_injective. intros [k v] [k' v'] H. simpl in H.
  injection H as -> H. f_equal.
  apply (map_injective PStr); [|assumption].
  intros x y Hxy. now injection Hxy.
Qed.

Lemma embed_stats_injective (a b : list (option pystr * Z)) :
  embed_stats a = embed_stats b -> a = b.
Proof.
  apply map_injective. intros [k v] [k' v'] H. simpl in H.
  injection H as Hk ->. f_equal.
  destruct k, k'; simpl in Hk; congruence.
Qed.

Lemma extract_typed_result (items : list RawItem)
  (index : list (pystr * list pystr)) (stats : list (option pystr * Z)) :
  extract_image_names (catalog_of items) =
    Ok (embed_index index, embed_stats stats) ->
  index = index_of items /\ stats = stats_of items.
Proof.
  rewrite extract_well_formed. intros H. injection H as H1 H2.
  split; symmetry; [now apply embed_index_injective
                   | now apply embed_stats_injective].
Qed.

Lemma stats_fold_sum (items : list RawItem) :
  forall stats,
    sum_values (fold_left stats_step items stats) =
    sum_values stats + Z.of_nat (List.length (filter has_name items)).
Proof.
  induction items as [|r items IH]; intros stats; simpl; [lia|].
  rewrite IH. unfold stats_step. destruct (has_name r); simpl List.length.
  - rewrite dict_set_count. lia.
  - lia.
Qed.

Lemma counted_under_split (t : pystr) (items : list RawItem) :
  List.length (filter (counted_under (Some t)) items) =
  (List.length (filter (listed_under t) items) +
   if pystr_eqb t (str "Unknown")
   then List.length (filter named_without_type items) else 0)%nat.
Proof.
  induction items as [|r items IH]; simpl.
  - now destruct (pystr_eqb t (str "Unknown")).
  - unfold counted_under at 1, listed_under at 1, named_without_type at 1,
      type_of.
    destruct (has_name r); simpl.
    + destruct (item_type r) as [| |ty]; simpl.
      * destruct (pystr_eqb t (str "Unknown")); simpl; lia.
      * destruct (pystr_eqb t (str "Unknown")); simpl; lia.
      * rewrite (pystr_eqb_sym ty t), andb_true_r.
        destruct (pystr_eqb t ty); simpl;
          destruct (pystr_eqb t (str "Unknown")); simpl; lia.
    + destruct (item_type r) as [| |ty]; simpl;
        try rewrite andb_false_r; simpl; exact IH.
Qed.

(** X14: [list_dhi_images] with a type filter against the statistics, on
    the same well-formed catalog.  The listing is sorted, holds the name
    of every named item of that type (a repeated name repeatedly), and
    every name in it is a key of the name index.  The statistics count
    under that type at least as many: the difference is, for [Unknown],
    the named items that have no [type] at all, which the statistics put
    under [Unknown] and which no filter ever lists; for any other type
    the two counts agree. *)
Theorem list_images_by_type_vs_statistics
  (items : list RawItem) (index : list (pystr * list pystr))
  (stats : list (option pystr * Z)) (image_type : pystr) :
  extract_image_names (catalog_of items) =
    Ok (embed_index index, embed_stats stats) ->
  exists r,
    list_dhi_images (Ok (index, stats)) (Ok items) (Some image_type) =
      Ok (Response r) /\
    ascending (images r) /\
    Permutation (images r) (map name_of (filter (listed_under image_type) items)) /\
    count r = Z.of_nat (List.length (images r)) /\
    (forall n, In n (images r) -> In n (dict_keys index)) /\
    dict_get label_eqb stats (Some image_type) 0 =
      count r +
      (if pystr_eqb image_type (str "Unknown")
       then Z.of_nat (List.length (filter named_without_type items)) else 0).
Proof.
  intros Hex. apply extract_typed_result in Hex as [-> ->].
  eexists. split; [reflexivity|]. simpl.
  split; [apply sorted_str_ascending|].
  split; [apply sorted_str_perm|].
  split; [reflexivity|].
  split.
  - intros n Hn.
    apply (Permutation_in _ (sorted_str_perm _)) in Hn.
    apply in_map_iff in Hn as [r [<- Hr]].
    apply filter_In in Hr as [Hr Hl].
    unfold index_of. apply index_fold_keys. right. exists r.
    repeat split; [assumption|].
    unfold listed_under in Hl. destruct (item_type r); try discriminate.
    now apply andb_true_iff in Hl.
  - unfold stats_of. rewrite stats_fold_get. simpl dict_get.
    rewrite counted_under_split.
    rewrite (Permutation_length (sorted_str_perm _)), length_map.
    destruct (pystr_eqb image_type (str "Unknown")); lia.
Qed.

(** X14 at a catalog with one typed and one untyped image. *)
Lemma list_images_by_type_unknown :
  exists r,
    list_dhi_images
      (Ok ([(str "redis", []); (str "nginx", [])],
           [(Some (str "IMAGE"), 1); (Some (str "Unknown"), 1)]))
      (Ok [ {| item_name := Present (str "redis");
               item_type := Present (str "IMAGE"); item_tagNames := Absent |};
            {| item_name := Present (str "nginx");
               item_type := Absent; item_tagNames := Absent |} ])
      (Some (str "Unknown")) = Ok (Response r) /\
    images r = [] /\
    dict_get label_eqb
      [(Some (str "IMAGE"), 1); (Some (str "Unknown"), 1)]
      (Some (str "Unknown")) 0 = 1.
Proof.
  destruct (list_images_by_type_vs_statistics
              [ {| item_name := Present (str "redis");
                   item_type := Present (str "IMAGE"); item_tagNames := Absent |};
                {| item_name := Present (str "nginx");
                   item_type := Absent; item_tagNames := Absent |} ]
              [(str "redis", []); (str "nginx", [])]
              [(Some (str "IMAGE"), 1); (Some (str "Unknown"), 1)]
              (str "Unknown") eq_refl) as [r [Hr _]].
  exists r. split; [exact Hr|].
  injection Hr as <-. split; reflexivity.
Defined.

(** X15: [list_dhi_images] without a filter against [get_dhi_statistics],
    on the same well-formed catalog.  The listing is sorted, without
    repetition, and holds exactly the non-empty names of the items;
    [total_items] is the number of items with a non-empty name, so the
    listing's [count] never exceeds it. *)
Theorem list_all_images_vs_total
  (items : list RawItem) (index : list (pystr * list pystr))
  (stats : list (option pystr * Z)) (raw_items : result (list RawItem)) :
  extract_image_names (catalog_of items) =
    Ok (embed_index index, embed_stats stats) ->
  exists r total,
    list_dhi_images (Ok (index, stats)) raw_items None = Ok (Response r) /\
    get_dhi_statistics (Ok (index, stats)) = Ok (Response (stats, total)) /\
    ascending (images r) /\
    NoDup (images r) /\
    (forall n, In n (images r) <->
               exists item, In item items /\ has_name item = true /\
                            name_of item = n) /\
    count r = Z.of_nat (List.length (images r)) /\
    total = Z.of_nat (List.length (filter has_name items)) /\
    count r <= total.
Proof.
  intros Hex. apply extract_typed_result in Hex as [-> ->].
  eexists. eexists. split; [reflexivity|]. split; [reflexivity|]. simpl.
  assert (Hnd : NoDup (dict_keys (index_of items))).
  { unfold index_of. apply index_fold_NoDup. constructor. }
  assert (Hin : forall n, In n (dict_keys (index_of items)) <->
                          exists item, In item items /\ has_name item = true /\
                                       name_of item = n).
  { intros n. unfold index_of. rewrite index_fold_keys. simpl. tauto. }
  assert (Hsum : sum_values (stats_of items) =
                 Z.of_nat (List.length (filter has_name items))).
  { unfold stats_of. rewrite stats_fold_sum. reflexivity. }
  split; [apply sorted_str_ascending|].
  split.
  { apply (Permutation_NoDup (l := dict_keys (index_of items)));
      [symmetry; apply sorted_str_perm | assumption]. }
  split.
  { intros n. rewrite <- Hin. split; apply Permutation_in;
      [apply sorted_str_perm | symmetry; apply sorted_str_perm]. }
  split; [reflexivity|]. split; [assumption|].
  rewrite Hsum, (Permutation_length (sorted_str_perm _)).
  apply inj_le.
  rewrite <- (length_map name_of (filter has_name items)).
  apply NoDup_incl_length; [assumption|].
  intros n Hn. apply Hin in Hn as [item [Hi [Hh <-]]].
  apply in_map, filter_In. auto.
Qed.

(** X15 at a catalog that names [redis] twice. *)
Lemma list_all_images_repeated_name :
  exists r total,
    list_dhi_images (Ok ([(str "redis", [])], [(Some (str "Unknown"), 2)]))
      (Raise DHISearchError) None = Ok (Response r) /\
    get_dhi_statistics (Ok ([(str "redis", [])], [(Some (str "Unknown"), 2)])) =
      Ok (Response ([(Some (str "Unknown"), 2)], total)) /\
    count r = 1 /\ total = 2.
Proof.
  destruct (list_all_images_vs_total
              [ {| item_name := Present (str "redis");
                   item_type := Absent; item_tagNames := Absent |};
                {| item_name := Present (str "redis");
                   item_type := Absent; item_tagNames := Absent |} ]
              [(str "redis", [])] [(Some (str "Unknown"), 2)]
              (Raise DHISearchError) eq_refl) as [r [total [Hr [Ht _]]]].
  exists r, total. split; [exact Hr|]. split; [exact Ht|].
  injection Hr as <-. injection Ht as <-. split; reflexivity.
Defined.

(* ================================================================== *)
(** * More on the matching engine *)
(* ================================================================== *)

Section EngineMore.

Variable WRatio : pystr -> pystr -> Z.
Variable partial_ratio : pystr -> pystr -> Z.

(** X16: the query is matched without regard to case: two queries that
    agree once lowercased get the same answer. *)
Theorem find_matches_ignores_query_case
  (q q' : pystr) (catalog_image_data : list (pystr * list pystr)) :
  lower q = lower q' ->
  find_matches WRatio partial_ratio q catalog_image_data =
  find_matches WRatio partial_ratio q' catalog_image_data.
Proof.
  intros H. unfold find_matches, core_name_of, core_parts_of, query_parts_of,
    normalized_query.
  now rewrite H.
Qed.

Lemma keyword_rule_idle (query_parts : list pystr) (name_clean : pystr)
  (tags : list pystr) :
  (forall kw, In kw keywords_to_enforce -> ~ In kw query_parts) ->
  keyword_rule_discards query_parts name_clean tags = false.
Proof.
  intros H. apply keyword_rule_keeps_iff. intros kw Hkw Hq.
  now destruct (H kw Hkw).
Qed.

(** X17: the tags of the catalog matter only to queries that ask for
    [cli] or [sdk]: when neither is a token of the query, two catalogs
    with the same names in the same order get the same answer, whatever
    their tags. *)
Theorem find_matches_ignores_tags
  (q : pystr) (catalog catalog' : list (pystr * list pystr)) :
  (forall kw, In kw keywords_to_enforce -> ~ In kw (query_parts_of q)) ->
  dict_keys catalog = dict_keys catalog' ->
  find_matches WRatio partial_ratio q catalog =
  find_matches WRatio partial_ratio q catalog'.
Proof.
  intros Hkw Hkeys. unfold find_matches. rewrite Hkeys.
  f_equal. f_equal. apply filter_ext. intros m. unfold keeps_match.
  now rewrite !(keyword_rule_idle _ _ _ Hkw).
Qed.

(** X5: every returned name is a catalog name that scores at least 85
    against the normalized query and passes the core-name rule and the
    keyword-enforcement rule; for a catalog of at most five names the
    converse holds too, so that the answer consists of exactly these
    names. *)
Theorem find_matches_membership
  (q : pystr) (catalog : list (pystr * list pystr)) (name : pystr) :
  (In name (find_matches WRatio partial_ratio q catalog) ->
   In name (dict_keys catalog) /\
   85 <= WRatio (normalized_query q) name /\
   core_rule_keeps partial_ratio (core_name_of q) (name_clean_of name) = true /\
   keyword_rule_discards (query_parts_of q) (name_clean_of name)
     (dict_get pystr_eqb catalog name []) = false) /\
  ((List.length catalog <= 5)%nat ->
   In name (dict_keys catalog) ->
   85 <= WRatio (normalized_query q) name ->
   core_rule_keeps partial_ratio (core_name_of q) (name_clean_of name) = true ->
   keyword_rule_discards (query_parts_of q) (name_clean_of name)
     (dict_get pystr_eqb catalog name []) = false ->
   In name (find_matches WRatio partial_ratio q catalog)).
Proof.
  split.
  - intros H. apply find_matches_In in H as [score [Hin Hk]].
    apply process_extract_In in Hin as [Hin ->].
    apply keeps_match_true in Hk. tauto.
  - intros Hlen Hin Hs Hc Hk. apply find_matches_In.
    exists (WRatio (normalized_query q) name). split.
    + unfold process_extract. rewrite firstn_all2.
      * apply sort_desc_In, in_map_iff. now exists name.
      * rewrite sort_desc_length, length_map. unfold dict_keys.
        now rewrite length_map.
    + apply keeps_match_true. auto.
Qed.

End EngineMore.

(** X16 at [Redis] and [REDIS]. *)
Lemma find_matches_ignores_query_case_redis :
  find_matches spec_ratio spec_partial_ratio (str "Redis") [(str "redis", [])] =
  find_matches spec_ratio spec_partial_ratio (str "REDIS") [(str "redis", [])].
Proof.
  exact (find_matches_ignores_query_case spec_ratio spec_partial_ratio
           (str "Redis") (str "REDIS") [(str "redis", [])] eq_refl).
Defined.

(** X17 at the query [redis] and two catalogs that differ in their tags. *)
Lemma find_matches_ignores_tags_redis :
  find_matches spec_ratio spec_partial_ratio (str "redis")
    [(str "redis", [str "7-cli"])] =
  find_matches spec_ratio spec_partial_ratio (str "redis")
    [(str "redis", [])].
Proof.
  apply (find_matches_ignores_tags spec_ratio spec_partial_ratio (str "redis")
           [(str "redis", [str "7-cli"])] [(str "redis", [])]);
    [|reflexivity].
  intros kw Hkw Hq. vm_compute in Hq. destruct Hq as [<- | []].
  vm_compute in Hkw. destruct Hkw as [H | [H | []]]; discriminate.
Defined.

(** X5 at a catalog of one name. *)
Lemma find_matches_membership_redis :
  In (str "redis")
     (find_matches spec_ratio spec_partial_ratio (str "Redis")
        [(str "redis", [])]).
Proof.
  apply (proj2 (find_matches_membership spec_ratio spec_partial_ratio
                  (str "Redis") [(str "redis", [])] (str "redis"))).
  - simpl. lia.
  - left. reflexivity.
  - vm_compute. discriminate.
  - reflexivity.
  - reflexivity.
Defined.


(* ================================================================== *)
(** * Credentials *)
(* ================================================================== *)

(** X18: with [DOCKER_USERNAME] or [DOCKER_PAT] unset or empty,
    [get_catalog_data], [get_repository_tags] and [get_tag_support_info]
    raise [DHISearchError] whatever the endpoints would answer, and
    [get_image_support_info] returns the error dictionary. *)
Theorem missing_credentials
  (username pat : option pystr) (auth_post post : http_outcome)
  (repo_name tag : pystr) :
  env_unset username || env_unset pat = true ->
  get_catalog_data username pat auth_post post = Raise DHISearchError /\
  get_repository_tags username pat auth_post post repo_name =
    Raise DHISearchError /\
  get_tag_support_info username pat auth_post post repo_name tag =
    Raise DHISearchError /\
  get_image_support_info
    (get_tag_support_info username pat auth_post post repo_name tag) =
    Ok ErrorResponse.
Proof.
  intros H.
  unfold get_catalog_data, get_repository_tags, get_tag_support_info,
    get_jwt_token.
  rewrite H. repeat split.
Qed.

(** X18 with no password. *)
Lemma missing_credentials_no_password :
  get_catalog_data (Some (str "me")) None
    (JsonBody (PDict [(str "token", PStr (str "jwt"))]))
    (JsonBody (catalog_of [])) = Raise DHISearchError.
Proof.
  exact (proj1 (missing_credentials (Some (str "me")) None
                  (JsonBody (PDict [(str "token", PStr (str "jwt"))]))
                  (JsonBody (catalog_of [])) [] [] eq_refl)).
Defined.

(* ================================================================== *)
(** * find_matches raises nothing on a well-typed catalog *)
(* ================================================================== *)

Lemma all_strings_embed (l : list pystr) : all_strings (map PStr l) = Ok l.
Proof.
  induction l as [|s l IH]; [reflexivity|].
  simpl. now rewrite IH.
Qed.

Lemma py_join_embed (sep : pystr) (tags : list pystr) :
  py_join sep (PList (map PStr tags)) = Ok (join sep tags).
Proof. unfold py_join. simpl py_iter. simpl bind. now rewrite all_strings_embed. Qed.

Lemma embed_index_get_tags (index : list (pystr * list pystr)) (n : pystr) :
  dict_get key_eqb (embed_index index) (PStr n) (PList []) =
  PList (map PStr (dict_get pystr_eqb index n [])).
Proof.
  induction index as [|[k v] index IH]; simpl; [reflexivity|].
  destruct (pystr_eqb n k); [reflexivity | exact IH].
Qed.

Lemma insert_desc_map {A B : Type} (f : A -> B) (x : A * Z) (l : list (A * Z)) :
  insert_desc (f (fst x), snd x) (map (fun m => (f (fst m), snd m)) l) =
  map (fun m => (f (fst m), snd m)) (insert_desc x l).
Proof.
  induction l as [|y l IH]; simpl; [reflexivity|].
  destruct (snd x <? snd y); simpl; [now rewrite IH | reflexivity].
Qed.

Lemma sort_desc_map {A B : Type} (f : A -> B) (l : list (A * Z)) :
  sort_desc (map (fun m => (f (fst m), snd m)) l) =
  map (fun m => (f (fst m), snd m)) (sort_desc l).
Proof.
  induction l as [|x l IH]; simpl; [reflexivity|].
  now rewrite IH, insert_desc_map.
Qed.

Section NeverRaises.

Variable WRatio_dyn : pystr -> pyval -> result Z.
Variable partial_ratio_dyn : pystr -> pystr -> result Z.
Variable WRatio : pystr -> pystr -> Z.
Variable partial_ratio : pystr -> pystr -> Z.

(** The library scorers return a score on strings. *)
Hypothesis WRatio_returns :
  forall q s, WRatio_dyn q (PStr s) = Ok (WRatio q s).
Hypothesis partial_ratio_returns :
  forall a b, partial_ratio_dyn a b = Ok (partial_ratio a b).

Lemma score_choices_embed (query : pystr) (choices : list pystr) :
  score_choices WRatio_dyn query (map PStr choices) =
  Ok (map (fun m => (PStr (fst m), snd m))
        (map (fun c => (c, WRatio query c)) choices)).
Proof.
  induction choices as [|c choices IH]; [reflexivity|].
  simpl. now rewrite WRatio_returns, IH.
Qed.

Lemma core_rule_keeps_embed (core_name name_clean : pystr) :
  core_rule_keeps_dyn partial_ratio_dyn core_name name_clean =
  Ok (core_rule_keeps partial_ratio core_name name_clean).
Proof.
  unfold core_rule_keeps_dyn, core_rule_keeps.
  destruct core_name as [|c core]; [reflexivity|].
  destruct (2 <? _); [|reflexivity].
  destruct (negb (contains (c :: core) name_clean)); [|reflexivity].
  now rewrite partial_ratio_returns.
Qed.

Lemma keeps_match_embed (catalog : list (pystr * list pystr))
  (query_parts : list pystr) (core_name : pystr) (m : pystr * Z) :
  keeps_match_dyn partial_ratio_dyn (embed_index catalog) query_parts core_name
    (PStr (fst m), snd m) =
  Ok (keeps_match partial_ratio catalog query_parts core_name m).
Proof.
  unfold keeps_match_dyn, keeps_match. simpl fst. simpl snd.
  destruct (snd m <? 85); [reflexivity|].
  simpl name_clean_dyn. simpl bind. rewrite core_rule_keeps_embed. simpl bind.
  destruct (core_rule_keeps partial_ratio core_name (name_clean_of (fst m)));
    [|reflexivity].
  simpl negb. cbv iota. unfold keyword_rule_discards.
  destruct (should_continue query_parts (name_clean_of (fst m))); [|reflexivity].
  rewrite embed_index_get_tags, py_join_embed. simpl bind.
  now rewrite negb_involutive.
Qed.

Lemma filter_matches_embed (catalog : list (pystr * list pystr))
  (query_parts : list pystr) (core_name : pystr) (matches : list (pystr * Z)) :
  filter_matches_dyn partial_ratio_dyn (embed_index catalog) query_parts core_name
    (map (fun m => (PStr (fst m), snd m)) matches) =
  Ok (map (fun m => (PStr (fst m), snd m))
        (filter (keeps_match partial_ratio catalog query_parts core_name) matches)).
Proof.
  induction matches as [|m matches IH]; [reflexivity|].
  rewrite map_cons.
  change (filter_matches_dyn ?P ?c ?qp ?cn (?x :: ?rest))
    with (bind (keeps_match_dyn P c qp cn x)
            (fun keep =>
               bind (filter_matches_dyn P c qp cn rest)
                 (fun results => Ok (if keep then x :: results else results)))).
  rewrite keeps_match_embed, IH. simpl bind. simpl filter.
  now destruct (keeps_match partial_ratio catalog query_parts core_name m).
Qed.

Lemma find_matches_embed (input_image : pystr)
  (catalog : list (pystr * list pystr)) :
  find_matches_dyn WRatio_dyn partial_ratio_dyn input_image (embed_index catalog) =
  Ok (map PStr (find_matches WRatio partial_ratio input_image catalog)).
Proof.
  unfold find_matches_dyn, find_matches, process_extract_dyn, process_extract.
  rewrite embed_index_keys, score_choices_embed.
  cbv beta iota delta [bind].
  rewrite sort_desc_map, firstn_map, filter_matches_embed.
  rewrite sort_desc_map, !map_map. reflexivity.
Qed.

(** C7: on every query string and every catalog mapping
    ([dict[str, list[str]]]), [find_matches] raises no exception, provided
    the library scorers return a score on strings: none of its own
    operations ([.replace], [.lower], [" ".join], [.get], the
    comparisons) can raise there.  It returns the list of names of the
    exception-free reading; for an empty catalog that is the empty list,
    for an empty query the retained candidates filtered by the score
    floor alone. *)
Theorem C7_find_matches_never_raises :
  (forall input_image catalog,
      find_matches_dyn WRatio_dyn partial_ratio_dyn input_image
        (embed_index catalog) =
      Ok (map PStr (find_matches WRatio partial_ratio input_image catalog))) /\
  (forall input_image,
      find_matches_dyn WRatio_dyn partial_ratio_dyn input_image [] = Ok []) /\
  (forall catalog,
      find_matches_dyn WRatio_dyn partial_ratio_dyn [] (embed_index catalog) =
      Ok (map PStr
            (map fst
               (sort_desc
                  (filter (fun m => 85 <=? snd m)
                     (process_extract WRatio [] (dict_keys catalog) 5)))))).
Proof.
  destruct (find_matches_on_empty_inputs WRatio partial_ratio) as [_ [He Hq]].
  split; [exact find_matches_embed|]. split.
  - reflexivity.
  - intros catalog. now rewrite find_matches_embed, Hq.
Qed.

End NeverRaises.

(** C7 at the reference scorers, the query [Redis] and a catalog of two
    names. *)
Lemma C7_redis_never_raises :
  find_matches_dyn
    (fun q v => match v with
                | PStr s => Ok (spec_ratio q s)
                | _ => Raise TypeError
                end)
    (fun a b => Ok (spec_partial_ratio a b))
    (str "Redis")
    (embed_index [(str "redis", [str "7"]); (str "valkey", [])]) =
  Ok (map PStr
        (find_matches spec_ratio spec_partial_ratio (str "Redis")
           [(str "redis", [str "7"]); (str "valkey", [])])).
Proof.
  apply (proj1 (C7_find_matches_never_raises
                  (fun q v => match v with
                              | PStr s => Ok (spec_ratio q s)
                              | _ => Raise TypeError
                              end)
                  (fun a b => Ok (spec_partial_ratio a b))
                  spec_ratio spec_partial_ratio
                  (fun q s => eq_refl) (fun a b => eq_refl))).
Defined.

(** Outside that type the body does raise: a tag that is a number makes
    [" ".join(tags)] raise [TypeError] once a query asks for [cli], and a
    key that is [None] makes [name.replace] raise [AttributeError]. *)
Lemma find_matches_dyn_can_raise :
  find_matches_dyn (fun _ _ => Ok 100) (fun _ _ => Ok 100) (str "redis cli")
    [(PStr (str "redis"), PList [PInt 7])] = Raise TypeError /\
  find_matches_dyn (fun _ _ => Ok 100) (fun _ _ => Ok 100) (str "redis")
    [(PNone, PList [])] = Raise AttributeError.
Proof. split; reflexivity. Qed.
